(** * gservice.core: the Service supervision tree, embedded and verified

    The development follows [gservice/core.py].  Python objects that the
    code only passes around are kept abstract; the state the lifecycle
    methods read and write (the [started] flag, the two gevent events, the
    greenlet group, the error-handler dict, the child list) is explicit, and
    every method is a function from a state to a result, a new state and
    the list of effects it performed, in program order. *)

From Stdlib Require Import List String ZArith Bool Lia Arith Permutation.
Import ListNotations.
Open Scope string_scope.
Open Scope list_scope.

Set Implicit Arguments.
Set Warnings "-register-all".

(** ** Python values and exceptions *)

(** An exception class is known by its name; an exception instance carries
    the method-resolution order of its class (the class itself first), which
    is all [isinstance] and an [except] clause look at, and its message. *)
Definition kind := string.

Record exn := Exn { exn_mro : list kind; exn_msg : string }.

Definition isinstance (e : exn) (k : kind) : bool :=
  existsb (String.eqb k) (exn_mro e).

Definition RuntimeWarning (msg : string) : exn :=
  Exn ["RuntimeWarning"; "Warning"; "Exception"; "BaseException"] msg.

Definition RuntimeError (msg : string) : exn :=
  Exn ["RuntimeError"; "StandardError"; "Exception"; "BaseException"] msg.

Definition AttributeError (msg : string) : exn :=
  Exn ["AttributeError"; "StandardError"; "Exception"; "BaseException"] msg.

(** The values a hook can return that the code distinguishes. *)
Inductive pyval :=
| PyNone
| PyBool (b : bool)
| PyInt (z : Z)
| PyStr (s : string)
| PyExc (e : exn).

(** [NOT_READY = 1] *)
Definition NOT_READY : pyval := PyInt 1.

(** Python's [==] on these values: [bool] is a subclass of [int], so
    [True == 1] and [False == 0]. *)
Definition py_eq (a b : pyval) : bool :=
  match a, b with
  | PyNone, PyNone => true
  | PyBool x, PyBool y => Bool.eqb x y
  | PyBool x, PyInt z => Z.eqb (if x then 1 else 0) z
  | PyInt z, PyBool x => Z.eqb z (if x then 1 else 0)
  | PyInt x, PyInt y => Z.eqb x y
  | PyStr x, PyStr y => String.eqb x y
  | _, _ => false
  end.

(** [x is True]: identity with the singleton [True]. *)
Definition py_is_True (v : pyval) : bool :=
  match v with PyBool true => true | _ => false end.

(** A call either returns a value or raises. *)
Inductive result (A : Type) :=
| Ret (a : A)
| Raise (e : exn).
Arguments Ret {A} a.
Arguments Raise {A} e.

Definition is_ret {A} (r : result A) : bool :=
  match r with Ret _ => true | Raise _ => false end.

(** ** The error interceptor: [Service._wrap_errors] and [Service.catch] *)

Module Interceptor.

(** A callable handed to [spawn] or registered with [catch].  Its run is
    described by what the interceptor can observe of it: the [catch]
    registrations made on the owning service while it runs (by the callable
    or by another greenlet while it is blocked), then the way it ends.
    [fid] identifies the callable in the invocation log. *)
Inductive func :=
| Func (fid : nat) (regs : list (kind * func)) (out : result pyval).

Definition fid (f : func) : nat := let 'Func i _ _ := f in i.
Definition regs (f : func) : list (kind * func) := let 'Func _ r _ := f in r.
Definition out (f : func) : result pyval := let 'Func _ _ o := f in o.

(** [_error_handlers]: a dict from exception class to
    [(handler, greenlet)].  Keys are unique; the list order is the dict's
    iteration order.  The greenlet is the one that called [catch]. *)
Definition table := list (kind * (func * nat)).

Definition keys (t : table) : list kind := map fst t.

Fixpoint lookup (k : kind) (t : table) : option (func * nat) :=
  match t with
  | [] => None
  | (k', v) :: t' => if String.eqb k k' then Some v else lookup k t'
  end.

Section HashOrder.
(** A Python 2 dict iterates in the order of its hash table, which is not
    the order of insertion and which the insertion of a new key can change
    for all the keys.  [before l k1 k2] tells whether [k1] comes before
    [k2] once the dict holds the keys [l], which lists the keys in the
    order they had, the new key last; it stands for the hashes of the
    classes and the state of the hash table, and is left open. *)
Variable before : list kind -> kind -> kind -> bool.

(** The place of one entry among entries that are in order.  Entries of
    the same key, which a dict never has, do not pass one another. *)
Fixpoint place (l : list kind) (x : kind * (func * nat)) (t : table)
  : table :=
  match t with
  | [] => [x]
  | y :: t' =>
      if String.eqb (fst x) (fst y) || before l (fst x) (fst y)
      then x :: y :: t'
      else y :: place l x t'
  end.

(** The entries in the order the dict gives them. *)
Definition rehash (t : table) : table :=
  fold_right (place (keys t)) [] t.

(** The value of a key that is in the dict is replaced where it is. *)
Fixpoint replace (k : kind) (v : func * nat) (t : table) : table :=
  match t with
  | [] => []
  | (k', v') :: t' =>
      if String.eqb k k' then (k, v) :: t' else (k', v') :: replace k v t'
  end.

(** [d[k] = v]: an existing key keeps its place and the order stays; a
    new key is added, and the order of the dict is then any that [before]
    gives. *)
Definition setitem (k : kind) (v : func * nat) (t : table) : table :=
  if existsb (String.eqb k) (keys t) then replace k v t
  else rehash (t ++ [(k, v)]).

(** [catch] as far as this service's own dict goes:
    [self._error_handlers[type] = (handler, gevent.getcurrent())]. *)
Definition catch_here (cur : nat) (t : table) (kh : kind * func) : table :=
  setitem (fst kh) (snd kh, cur) t.

Definition run_regs (cur : nat) (t : table) (rs : list (kind * func)) : table :=
  fold_left (catch_here cur) rs t.
End HashOrder.

(** The order of insertion, one of the orders a dict can have. *)
Definition insertion_order : list kind -> kind -> kind -> bool :=
  fun _ _ _ => true.

(** [except exceptions, exception] with [exceptions] a tuple of classes. *)
Definition except_matches (exceptions : list kind) (e : exn) : bool :=
  existsb (isinstance e) exceptions.

(** What a call of the wrapped callable yields: its result, the handler
    dict afterwards, and the callables that ran, in order. *)
Definition outcome := (option (result pyval) * table * list nat)%type.

Definition dict_changed : exn :=
  RuntimeError "dictionary changed size during iteration".

(** [for type in self._error_handlers: ...], the body of the [except]
    clause.  It walks the keys the dict had when the loop began and, as a
    dict iterator does, raises once the dict's size differs from the one
    at its creation ([size]).  [call] is [self._wrap_errors(handler)]. *)
Fixpoint dispatch (call : table -> func -> outcome) (exception : exn)
    (size : nat) (ks : list kind) (t : table) (log : list nat) : outcome :=
  if negb (Nat.eqb (List.length t) size) then
    (Some (Raise dict_changed), t, log)
  else
    match ks with
    | [] => (Some (Ret (PyExc exception)), t, log)
    | type :: ks' =>
        if isinstance exception type then
          match lookup type t with
          | None => (Some (Raise (Exn ["KeyError"; "LookupError"] type)), t, log)
          | Some (handler, greenlet) =>
              match call t handler with
              | (Some (Ret _), t', log') =>
                  dispatch call exception size ks' t' (log ++ log')
              | (r, t', log') => (r, t', log ++ log')
              end
          end
        else dispatch call exception size ks' t log
    end.

(** [wrapped_f], the closure [_wrap_errors(func)] returns, called in
    greenlet [cur] when the dict is [t].  The recursion through the
    handlers is not structural (a handler may raise into itself), so it is
    bounded by [fuel], the depth of nested interceptor calls; [None] is
    running out of it.  [before] is the order of the dict. *)
Fixpoint wrapped_f (before : list kind -> kind -> kind -> bool) (fuel : nat)
    (cur : nat) (t : table) (f : func) : outcome :=
  match fuel with
  | O => (None, t, [])
  | S fuel' =>
      let exceptions := keys t in
      let t1 := run_regs before cur t (regs f) in
      match out f with
      | Ret v => (Some (Ret v), t1, [fid f])
      | Raise exception =>
          if except_matches exceptions exception then
            dispatch (wrapped_f before fuel' cur) exception (List.length t1)
                     (keys t1) t1 [fid f]
          else (Some (Raise exception), t1, [fid f])
      end
  end.

End Interceptor.

(** ** The service tree and its lifecycle: [Service.start], [Service.stop] *)

Module Lifecycle.

(** A greenlet of a service's group [_greenlets], with the time it still
    needs to finish by itself. *)
Record greenlet := Greenlet { gid : nat; time_left : Z }.

(** The [do_start] hook of a service class: whether it calls
    [self.set_ready()] itself, what it returns or raises, and whether a task
    it left behind calls [set_ready] while [start] waits on the ready
    event. *)
Record start_hook := StartHook {
  ds_set_ready : bool;
  ds_out : result pyval;
  ds_ready_in_wait : bool }.

(** The overridable methods of a service class.  The other hooks either
    return or raise. *)
Record hooks := Hooks {
  pre_start : result unit;
  do_start : start_hook;
  post_start : result unit;
  pre_stop : result unit;
  do_stop : result unit;
  post_stop : result unit }.

(** The defaults of the base class: every hook is [pass] or [return]. *)
Definition default_hooks : hooks :=
  Hooks (Ret tt) (StartHook false (Ret PyNone) false) (Ret tt)
        (Ret tt) (Ret tt) (Ret tt).

(** The attributes of one [Service] instance, its children apart. *)
Record node := Node {
  class_name : string;
  stop_timeout : Z;
  ready_timeout : Z;
  started : bool;
  stopped_event : bool;
  ready_event : bool;
  greenlets : list greenlet;
  error_handlers : Interceptor.table;
  hk : hooks }.

(** Modelled from the spec: [gservice.util.defaultproperty] is not among
    the sources.  A freshly constructed instance has the defaults the class
    body names and the spec repeats: [stop_timeout] 1, [ready_timeout] 2,
    not started, both events clear, an empty group, no handlers. *)
Definition new_node (name : string) (h : hooks) : node :=
  Node name 1 2 false false false [] [] h.

Definition set_started (b : bool) (n : node) : node :=
  Node (class_name n) (stop_timeout n) (ready_timeout n) b
       (stopped_event n) (ready_event n) (greenlets n) (error_handlers n) (hk n).

Definition set_stopped_event (b : bool) (n : node) : node :=
  Node (class_name n) (stop_timeout n) (ready_timeout n) (started n)
       b (ready_event n) (greenlets n) (error_handlers n) (hk n).

Definition set_ready_event (b : bool) (n : node) : node :=
  Node (class_name n) (stop_timeout n) (ready_timeout n) (started n)
       (stopped_event n) b (greenlets n) (error_handlers n) (hk n).

Definition set_greenlets (g : list greenlet) (n : node) : node :=
  Node (class_name n) (stop_timeout n) (ready_timeout n) (started n)
       (stopped_event n) (ready_event n) g (error_handlers n) (hk n).

Definition set_error_handlers (t : Interceptor.table) (n : node) : node :=
  Node (class_name n) (stop_timeout n) (ready_timeout n) (started n)
       (stopped_event n) (ready_event n) (greenlets n) t (hk n).

(** A [gevent.baseserver.BaseServer] put in the child list as it is.  Its
    [start] sets [started] when it succeeds and its [stop] resets it. *)
Record baseserver := BaseServer {
  bs_started : bool;
  bs_start : result unit;
  bs_stop : result unit }.

(** A service with its ordered child list [_children].  The children of
    a list are distinct objects: a service is added to one parent, once. *)
Inductive service :=
| Svc (n : node) (cs : list child)
with child :=
| CService (s : service)
| CServer (b : baseserver).

Definition node_of (s : service) : node := let 'Svc n _ := s in n.
Definition children (s : service) : list child := let 'Svc _ cs := s in cs.

(** [child.started] *)
Definition child_started (c : child) : bool :=
  match c with
  | CService s => started (node_of s)
  | CServer b => bs_started b
  end.

(** What a method does that can be seen from outside, in program order.
    A service is named by its path from the root: the indices in the child
    lists. *)
Inductive action :=
| PreStart | DoStart | PostStart
| PreStop | DoStop | PostStop
| SetStarted (b : bool)
| ClearStopped | SetStopped
| ClearReady | SetReady
| WaitReady (timeout : Z)
| Join (timeout : Z)
| Kill (block : bool) (timeout : Z)
| SpawnStop
| ServerStart | ServerStop
| ReadyCallback.

Definition path := list nat.
Definition event := (path * action)%type.
Definition trace := list event.

(** [gevent.getcurrent() in self._greenlets] *)
Definition in_group (cur : nat) (n : node) : bool :=
  existsb (fun g => Nat.eqb cur (gid g)) (greenlets n).

(** [Group.join(timeout)]: the greenlets that finish in time leave the
    group.  [Group.kill(block=True, timeout=1)] empties it. *)
Definition join (timeout : Z) (g : list greenlet) : list greenlet :=
  filter (fun x => Z.ltb timeout (time_left x)) g.

Definition kill (g : list greenlet) : list greenlet := [].

(** The [finally] clause of [stop] up to the [post_stop] call. *)
Definition cleanup (p : path) (timeout : option Z) (n : node) : node * trace :=
  let timeout := match timeout with None => stop_timeout n | Some t => t end in
  let '(n, tr) :=
    match greenlets n with
    | [] => (n, [])
    | _ :: _ =>
        (set_greenlets (kill (join timeout (greenlets n))) n,
         [(p, Join timeout); (p, Kill true 1)])
    end in
  (set_stopped_event true (set_ready_event false n),
   tr ++ [(p, ClearReady); (p, SetStopped)]).

(** [child.stop()] on a foreign server. *)
Definition server_stop (p : path) (b : baseserver)
  : result unit * baseserver * trace :=
  (bs_stop b, BaseServer false (bs_start b) (bs_stop b), [(p, ServerStop)]).

Section StopLoop.
(** [child.stop()] on a child that is a [Service]. *)
Variable child_stop : path -> service -> result unit * service * trace.

(** The body of the loop: [if child.started: child.stop()]. *)
Definition stop_child (p : path) (i : nat) (c : child)
  : result unit * child * trace :=
  if child_started c then
    match c with
    | CService s' =>
        let '(r, s', tr) := child_stop (p ++ [i]) s' in (r, CService s', tr)
    | CServer b =>
        let '(r, b, tr) := server_stop (p ++ [i]) b in (r, CServer b, tr)
    end
  else (Ret tt, c, []).

(** [for child in reversed(self._children)]: the tail of the list is
    handled before its head, so the last child comes first, and a child
    that raises ends the loop with the children before it untouched.
    [i] is the index of the head of [cs] in the child list. *)
Fixpoint stop_children (p : path) (i : nat) (cs : list child) {struct cs}
  : result unit * list child * trace :=
  match cs with
  | [] => (Ret tt, [], [])
  | c :: rest =>
      let '(r, rest, tr) := stop_children p (S i) rest in
      match r with
      | Raise e => (Raise e, c :: rest, tr)
      | Ret _ =>
          let '(r, c, tr') := stop_child p i c in (r, c :: rest, tr ++ tr')
      end
  end.

(** The [try] suite of [stop]. *)
Definition stop_body (p : path) (n : node) (cs : list child)
  : result unit * list child * trace :=
  match pre_stop (hk n) with
  | Raise e => (Raise e, cs, [(p, PreStop)])
  | Ret _ =>
      let '(r, cs, tr) := stop_children p 0 cs in
      match r with
      | Raise e => (Raise e, cs, (p, PreStop) :: tr)
      | Ret _ => (do_stop (hk n), cs, (p, PreStop) :: tr ++ [(p, DoStop)])
      end
  end.
End StopLoop.

(** [Service.stop], called in greenlet [cur] on the service at path [p]:
    the deferral when the caller is one of the service's own greenlets,
    [self.started = False], the [try] suite, the [finally] clause.  A fault
    of [post_stop] replaces the one the [try] suite raised. *)
Fixpoint stop (cur : nat) (p : path) (s : service) (timeout : option Z)
  {struct s} : result unit * service * trace :=
  match s with
  | Svc n cs =>
      if in_group cur n then (Ret tt, s, [(p, SpawnStop)])
      else
        let n := set_started false n in
        let '(r, cs, tr) :=
          stop_body (fun q s' => stop cur q s' None) p n cs in
        let '(n, tr_c) := cleanup p timeout n in
        let tr := (p, SetStarted false) :: tr ++ tr_c ++ [(p, PostStop)] in
        match post_stop (hk n) with
        | Raise e => (Raise e, Svc n cs, tr)
        | Ret _ => (r, Svc n cs, tr)
        end
  end.

(** [child.start()] on a foreign server: [started] is set by a start that
    succeeds and is false after one that fails. *)
Definition server_start (p : path) (b : baseserver)
  : result unit * baseserver * trace :=
  (bs_start b, BaseServer (is_ret (bs_start b)) (bs_start b) (bs_stop b),
   [(p, ServerStart)]).

(** [ready = self.do_start()] with what follows it up to
    [self.started = True]: the wait on the ready event when the hook
    returned [NOT_READY] and [block_until_ready is True], the automatic
    [set] when it returned anything else. *)
Definition after_do_start (p : path) (block_until_ready ready : pyval)
    (n : node) : node * trace :=
  if py_eq ready NOT_READY && py_is_True block_until_ready then
    (set_ready_event (ready_event n || ds_ready_in_wait (do_start (hk n))) n,
     [(p, WaitReady (ready_timeout n))])
  else if negb (py_eq ready NOT_READY) then
    (set_ready_event true n, [(p, SetReady)])
  else (n, []).

(** The call [self.do_start()] itself. *)
Definition call_do_start (p : path) (n : node) : result pyval * node * trace :=
  let h := do_start (hk n) in
  if ds_set_ready h then
    (ds_out h, set_ready_event true n, [(p, DoStart); (p, SetReady)])
  else (ds_out h, n, [(p, DoStart)]).

Section StartLoop.
(** [child.start(block_until_ready)] on a child that is a [Service]. *)
Variable child_start : path -> service -> result unit * service * trace.

(** The body of the loop over the children: the two [isinstance]
    branches, each guarded by [if not child.started]. *)
Definition start_child (p : path) (i : nat) (c : child)
  : result unit * child * trace :=
  match c with
  | CService s' =>
      if negb (started (node_of s')) then
        let '(r, s', tr) := child_start (p ++ [i]) s' in (r, CService s', tr)
      else (Ret tt, c, [])
  | CServer b =>
      if negb (bs_started b) then
        let '(r, b, tr) := server_start (p ++ [i]) b in (r, CServer b, tr)
      else (Ret tt, c, [])
  end.

(** [for child in self._children]; a child that raises ends the loop
    with the children after it untouched. *)
Fixpoint start_children (p : path) (i : nat) (cs : list child) {struct cs}
  : result unit * list child * trace :=
  match cs with
  | [] => (Ret tt, [], [])
  | c :: rest =>
      let '(r, c, tr) := start_child p i c in
      match r with
      | Raise e => (Raise e, c :: rest, tr)
      | Ret _ =>
          let '(r, rest, tr') := start_children p (S i) rest in
          (r, c :: rest, tr ++ tr')
      end
  end.

(** The [try] suite of [start]. *)
Definition start_body (p : path) (block_until_ready : pyval) (n : node)
    (cs : list child) : result unit * node * list child * trace :=
  match pre_start (hk n) with
  | Raise e => (Raise e, n, cs, [(p, PreStart)])
  | Ret _ =>
      let '(r, cs, tr1) := start_children p 0 cs in
      match r with
      | Raise e => (Raise e, n, cs, (p, PreStart) :: tr1)
      | Ret _ =>
          let '(r, n, tr2) := call_do_start p n in
          match r with
          | Raise e => (Raise e, n, cs, (p, PreStart) :: tr1 ++ tr2)
          | Ret ready =>
              let '(n, tr3) := after_do_start p block_until_ready ready n in
              let n := set_started true n in
              (post_start (hk n), n, cs,
               (p, PreStart) :: tr1 ++ tr2 ++ tr3
                  ++ [(p, SetStarted true); (p, PostStart)])
          end
      end
  end.
End StartLoop.

(** [Service.start], called in greenlet [cur] on the service at path [p]:
    the double-start check, the two [clear]s, the [try] suite and the bare
    [except] clause, [self.stop()] then [raise].  A fault of that [stop]
    leaves the [except] clause in place of the one being handled. *)
Fixpoint start (cur : nat) (p : path) (s : service) (block_until_ready : pyval)
  {struct s} : result unit * service * trace :=
  match s with
  | Svc n cs =>
      if started n then
        (Raise (RuntimeWarning (class_name n ++ " already started")), s, [])
      else
        let n := set_ready_event false (set_stopped_event false n) in
        let '(r, n, cs, tr) :=
          start_body (fun q s' => start cur q s' block_until_ready)
                     p block_until_ready n cs in
        let tr := (p, ClearStopped) :: (p, ClearReady) :: tr in
        match r with
        | Ret _ => (Ret tt, Svc n cs, tr)
        | Raise e =>
            let '(r', s', tr') := stop cur p (Svc n cs) None in
            match r' with
            | Raise e' => (Raise e', s', tr ++ tr')
            | Ret _ => (Raise e, s', tr ++ tr')
            end
        end
  end.

(** [Service.set_ready]: [self._ready_event.set()]. *)
Definition set_ready (p : path) (s : service) : service * trace :=
  let 'Svc n cs := s in (Svc (set_ready_event true n) cs, [(p, SetReady)]).

(** [Service.ready] *)
Definition ready (s : service) : bool := ready_event (node_of s).

Section MaxGid.
Variable child_max : service -> nat.

Fixpoint max_gid_children (cs : list child) : nat :=
  match cs with
  | [] => 0
  | CService s' :: rest => Nat.max (child_max s') (max_gid_children rest)
  | CServer _ :: rest => max_gid_children rest
  end.
End MaxGid.

(** The largest identity of a greenlet in the groups of a tree. *)
Fixpoint max_gid (s : service) : nat :=
  match s with
  | Svc n cs =>
      Nat.max (list_max (map gid (greenlets n))) (max_gid_children max_gid cs)
  end.

(** The greenlet [gevent.spawn] makes: a new one, in no group. *)
Definition spawned (s : service) : nat := S (max_gid s).

(** How the blocking [self._stopped_event.wait()] of [serve_forever] ends
    when the event is not set yet: the wait is interrupted by a fault, or
    greenlet [g] calls [stop(timeout)] on the service meanwhile. *)
Inductive wait_outcome :=
| Interrupted (e : exn)
| Released (g : nat) (timeout : option Z).

(** The first statement of [serve_forever]:
    [if not self.started: self.start(); if ready_callback: ready_callback()]. *)
Definition ensure_started (cur : nat) (p : path) (s : service)
    (ready_callback : option (result unit)) : result unit * service * trace :=
  if negb (started (node_of s)) then
    let '(r, s, tr) := start cur p s (PyBool true) in
    match r, ready_callback with
    | Ret _, Some cb => (cb, s, tr ++ [(p, ReadyCallback)])
    | _, _ => (r, s, tr)
    end
  else (Ret tt, s, []).

(** Its [try] statement: the wait on the stopped event, which returns at
    once when the event is set, and the [except] clause
    [self.stop(timeout=stop_timeout); raise].  A [stop] that greenlet [g]
    calls from inside the service's group defers itself:
    [gevent.spawn(self.stop)] runs [stop()] in a new greenlet, which is
    what sets the event then.  [None] is a wait that never returns. *)
Definition wait_stopped (cur : nat) (p : path) (s : service)
    (stop_timeout : option Z) (w : wait_outcome)
  : option (result unit) * service * trace :=
  if stopped_event (node_of s) then (Some (Ret tt), s, [])
  else
    match w with
    | Interrupted e =>
        let '(r', s, tr') := stop cur p s stop_timeout in
        match r' with
        | Raise e' => (Some (Raise e'), s, tr')
        | Ret _ => (Some (Raise e), s, tr')
        end
    | Released g timeout =>
        let deferred := in_group g (node_of s) in
        let '(_, s, tr') := stop g p s timeout in
        let '(s, tr') :=
          if deferred then
            let '(_, s, tr2) := stop (spawned s) p s None in (s, tr' ++ tr2)
          else (s, tr') in
        if stopped_event (node_of s) then (Some (Ret tt), s, tr')
        else (None, s, tr')
    end.

(** [Service.serve_forever] *)
Definition serve_forever (cur : nat) (p : path) (s : service)
    (stop_timeout : option Z) (ready_callback : option (result unit))
    (w : wait_outcome) : option (result unit) * service * trace :=
  let '(r, s, tr) := ensure_started cur p s ready_callback in
  match r with
  | Raise e => (Some (Raise e), s, tr)
  | Ret _ =>
      let '(r', s, tr') := wait_stopped cur p s stop_timeout w in
      (r', s, tr ++ tr')
  end.

Section CatchLoop.
Variable child_catch : service -> result unit * service.

(** [for child in self._children: child.catch(type, handler)]; a foreign
    server in the list has no [catch]. *)
Fixpoint catch_children (cs : list child) : result unit * list child :=
  match cs with
  | [] => (Ret tt, [])
  | CService s' :: rest =>
      let '(r, s') := child_catch s' in
      match r with
      | Raise e => (Raise e, CService s' :: rest)
      | Ret _ =>
          let '(r, rest) := catch_children rest in (r, CService s' :: rest)
      end
  | CServer b :: rest =>
      (Raise (AttributeError "'BaseServer' object has no attribute 'catch'"),
       CServer b :: rest)
  end.
End CatchLoop.

(** [Service.catch(type, handler)] called in greenlet [cur]; [before] is
    the order of the dicts. *)
Fixpoint catch (before : list kind -> kind -> kind -> bool) (cur : nat)
    (type : kind) (handler : Interceptor.func)
    (s : service) {struct s} : result unit * service :=
  match s with
  | Svc n cs =>
      let n := set_error_handlers
                 (Interceptor.setitem before type (handler, cur)
                                      (error_handlers n)) n in
      let '(r, cs) := catch_children (catch before cur type handler) cs in
      (r, Svc n cs)
  end.

(** A greenlet made by [spawn] or [spawn_later]: it will call
    [self._wrap_errors(func)], a closure over the service itself. *)
Record task := Task {
  t_greenlet : greenlet;
  t_func : Interceptor.func;
  t_delay : option Z }.

(** [Service.spawn]: the new greenlet [g] joins the group. *)
Definition spawn (g : greenlet) (func : Interceptor.func) (n : node)
  : node * task :=
  (set_greenlets (greenlets n ++ [g]) n, Task g func None).

(** [Service.spawn_later] *)
Definition spawn_later (seconds : Z) (g : greenlet) (func : Interceptor.func)
    (n : node) : node * task :=
  (set_greenlets (greenlets n ++ [g]) n, Task g func (Some seconds)).

(** The greenlet runs: it calls the wrapped callable on the service as it
    is by then.  A fault that leaves the wrapped callable goes to gevent's
    default handler, which prints it. *)
Definition run_task (before : list kind -> kind -> kind -> bool) (fuel : nat)
    (t : task) (n : node) : option (result pyval) * node * list nat :=
  let '(r, tbl, log) :=
    Interceptor.wrapped_f before fuel (gid (t_greenlet t)) (error_handlers n)
                          (t_func t) in
  (r, set_error_handlers tbl n, log).

End Lifecycle.

(** ** Concrete services used as test inputs *)

Module Fixtures.
Import Lifecycle.

Definition E1 : exn := Exn ["StartFailed"; "Exception"; "BaseException"] "boom".
Definition E2 : exn := Exn ["StopFailed"; "Exception"; "BaseException"] "bang".

(** A service without children. *)
Definition leaf (name : string) (h : hooks) : service := Svc (new_node name h) [].

(** A started, ready service that owns greenlet 7, which needs 5 more
    time units. *)
Definition busy_node : node :=
  Node "Worker" 1 2 true false true [Greenlet 7 5] [] default_hooks.
Definition busy : service := Svc busy_node [].

(** A class whose [do_start] returns [True]. *)
Definition returns_True : hooks :=
  Hooks (Ret tt) (StartHook false (Ret (PyBool true)) false) (Ret tt)
        (Ret tt) (Ret tt) (Ret tt).

(** A class whose [pre_start] raises and whose [do_stop] raises. *)
Definition fails_twice : hooks :=
  Hooks (Raise E1) (StartHook false (Ret PyNone) false) (Ret tt)
        (Ret tt) (Raise E2) (Ret tt).

(** A class whose [post_start] raises. *)
Definition fails_late : hooks :=
  Hooks (Ret tt) (StartHook false (Ret PyNone) false) (Raise E1)
        (Ret tt) (Ret tt) (Ret tt).

(** A stopped service of that class that owns greenlet 7. *)
Definition late_owner : service :=
  Svc (Node "Late" 1 2 false true false [Greenlet 7 5] [] fails_late) [].

(** Children A, B, C added in that order, B not started. *)
Definition running (name : string) : service :=
  Svc (Node name 1 2 true false true [] [] default_hooks) [].
Definition abc : service :=
  Svc (Node "Root" 1 2 true false true [] [] default_hooks)
      [CService (running "A"); CService (leaf "B" default_hooks);
       CService (running "C")].

(** A tree that was never started: a service, a foreign server and a
    service with a child of its own. *)
Definition fresh_tree : service :=
  Svc (new_node "Root" default_hooks)
      [CService (leaf "A" default_hooks);
       CServer (BaseServer false (Ret tt) (Ret tt));
       CService (Svc (new_node "C" default_hooks)
                     [CService (leaf "D" default_hooks)])].

(** Two plain handlers, and a dict that has one under [Exception] and
    the other under [StartFailed], a subclass of it. *)
Definition h1 : Interceptor.func := Interceptor.Func 1 [] (Ret PyNone).
Definition h2 : Interceptor.func := Interceptor.Func 2 [] (Ret PyNone).
Definition two_kinds : Interceptor.table :=
  [("Exception", (h1, 0%nat)); ("StartFailed", (h2, 0%nat))].

(** A callable that raises [StartFailed]. *)
Definition raises_E1 : Interceptor.func := Interceptor.Func 0 [] (Raise E1).

(** A callable that registers a handler for [StartFailed] while it runs,
    then raises [StartFailed]. *)
Definition registers_then_raises : Interceptor.func :=
  Interceptor.Func 0 [("StartFailed", h2)] (Raise E1).

(** A handler for [StartFailed] that itself raises [StopFailed], with a
    plain handler registered for [StopFailed]. *)
Definition h3 : Interceptor.func := Interceptor.Func 3 [] (Raise E2).
Definition chained : Interceptor.table :=
  [("StartFailed", (h3, 0%nat)); ("StopFailed", (h1, 0%nat))].

(** A service with one child, both without handlers. *)
Definition parent_of_D : service :=
  Svc (new_node "Parent" default_hooks) [CService (leaf "D" default_hooks)].

(** Children A, B, C added in that order, all started. *)
Definition abc_running : service :=
  Svc (Node "Root" 1 2 true false true [] [] default_hooks)
      [CService (running "A"); CService (running "B"); CService (running "C")].

(** A class whose [do_stop] raises. *)
Definition stop_fails : hooks :=
  Hooks (Ret tt) (StartHook false (Ret PyNone) false) (Ret tt)
        (Ret tt) (Raise E2) (Ret tt).

(** Children A, B, C added in that order, all started, C of that class. *)
Definition abc_c_fails : service :=
  Svc (Node "Root" 1 2 true false true [] [] default_hooks)
      [CService (running "A"); CService (running "B");
       CService (Svc (Node "C" 1 2 true false true [] [] stop_fails) [])].

End Fixtures.

(** ** Observations on trees and traces used to state the properties *)

Module Observations.
Import Lifecycle.

(** A property of the children that are services. *)
Definition on_services (P : service -> Prop) (c : child) : Prop :=
  match c with CService s => P s | CServer _ => True end.

(** Every effect of a call on the service at path [q] is at [q] or below. *)
Definition below (q : path) (tr : trace) : Prop :=
  Forall (fun ev => exists r, fst ev = q ++ r) tr.

(** The elements of a list with their indices, counted from [i]. *)
Definition indexed {A} (i : nat) (l : list A) : list (nat * A) :=
  combine (seq i (List.length l)) l.

(** [strip p q]: what is left of [q] after its prefix [p]. *)
Fixpoint strip (p q : path) : option path :=
  match p, q with
  | [], _ => Some q
  | x :: p', y :: q' => if Nat.eqb x y then strip p' q' else None
  | _ :: _, [] => None
  end.

(** The first effect of a call of [stop]: the deferral, or
    [self.started = False]; for a foreign server, its own stop. *)
Definition is_stop_entry (a : action) : bool :=
  match a with
  | SetStarted false | SpawnStop | ServerStop => true
  | _ => false
  end.

(** The stop order recorded in a trace: the indices of the children of
    the service at [p] on which [stop] was called, in call order. *)
Definition stop_order (p : path) (tr : trace) : list nat :=
  flat_map (fun ev =>
              if is_stop_entry (snd ev) then
                match strip p (fst ev) with
                | Some [i] => [i]
                | _ => []
                end
              else []) tr.

(** The indices of the children whose [started] flag is set. *)
Definition started_indices (cs : list child) : list nat :=
  map fst (filter (fun ic => child_started (snd ic)) (indexed 0 cs)).

(** The lifecycle operations a caller can apply to a service. *)
Inductive op :=
| OpStart (block_until_ready : pyval)
| OpStop (timeout : option Z)
| OpSetReady
| OpServeForever (stop_timeout : option Z)
                 (ready_callback : option (result unit)) (w : wait_outcome).

(** One operation, called in greenlet [cur] on the root service. *)
Definition run_op (cur : nat) (s : service) (o : op) : service :=
  match o with
  | OpStart b => snd (fst (start cur [] s b))
  | OpStop t => snd (fst (stop cur [] s t))
  | OpSetReady => fst (set_ready [] s)
  | OpServeForever t cb w => snd (fst (serve_forever cur [] s t cb w))
  end.

(** The states at the operation boundaries of a sequence, the initial one
    first. *)
Fixpoint boundaries (cur : nat) (s : service) (ops : list op) : list service :=
  s :: match ops with
       | [] => []
       | o :: ops' => boundaries cur (run_op cur s o) ops'
       end.

(** A property of every service of a child list. *)
Definition all_services (P : service -> bool) (cs : list child) : bool :=
  forallb (fun c => match c with CService s => P s | CServer _ => true end) cs.

(** The ready gate is closed wherever [started] is false, in the whole
    tree. *)
Fixpoint gate_ok (s : service) : bool :=
  match s with
  | Svc n cs =>
      (started n || negb (ready_event n)) && all_services gate_ok cs
  end.

(** Greenlet [cur] belongs to no group of the tree. *)
Fixpoint outside (cur : nat) (s : service) : bool :=
  match s with
  | Svc n cs => negb (in_group cur n) && all_services (outside cur) cs
  end.

(** The calls of a sequence that the amended property admits:
    [set_ready] only on a started service. *)
Definition op_ok (s : service) (o : op) : bool :=
  match o with
  | OpSetReady => started (node_of s)
  | _ => true
  end.

Fixpoint ops_ok (cur : nat) (s : service) (ops : list op) : bool :=
  match ops with
  | [] => true
  | o :: ops' => op_ok s o && ops_ok cur (run_op cur s o) ops'
  end.

(** A handler that registers nothing and returns. *)
Definition plain (h : Interceptor.func) : bool :=
  match Interceptor.regs h, Interceptor.out h with
  | [], Ret _ => true
  | _, _ => false
  end.

(** The entries of a handler dict whose class the fault is an instance
    of, in the dict's order, and the handlers registered under them. *)
Definition matching (e : exn) (t : Interceptor.table) : Interceptor.table :=
  filter (fun kv => isinstance e (fst kv)) t.

Definition handler_ids (t : Interceptor.table) : list nat :=
  map (fun kv => Interceptor.fid (fst (snd kv))) t.

End Observations.

(** ** The rest of the [Service] interface *)

Module Interface.
Import Lifecycle.

(** [Service.add_service] for an argument that is a [Service] already (a
    [BaseServer] argument is wrapped first): the child goes to the end of
    the list. *)
Definition add_service (c : service) (s : service) : service :=
  let 'Svc n cs := s in Svc n (cs ++ [CService c]).

Section ReloadLoop.
(** [child.reload()] on a child that is a [Service]; the list is the
    services whose [do_reload] was called, in call order. *)
Variable child_reload : path -> service -> result unit * list path.

(** [for child in self._children: child.reload()]; a foreign server in
    the list has no [reload]. *)
Fixpoint reload_children (p : path) (i : nat) (cs : list child)
  : result unit * list path :=
  match cs with
  | [] => (Ret tt, [])
  | CService s' :: rest =>
      let '(r, tr) := child_reload (p ++ [i]) s' in
      match r with
      | Raise e => (Raise e, tr)
      | Ret _ =>
          let '(r, tr') := reload_children p (S i) rest in (r, tr ++ tr')
      end
  | CServer b :: rest =>
      (Raise (AttributeError "'BaseServer' object has no attribute 'reload'"),
       [])
  end.
End ReloadLoop.

(** [Service.reload]: the children, then [self.do_reload()].  [do_reload]
    gives, for the service at a path, what its hook does. *)
Fixpoint reload (do_reload : path -> result unit) (p : path) (s : service)
  {struct s} : result unit * list path :=
  match s with
  | Svc n cs =>
      let '(r, tr) := reload_children (reload do_reload) p 0 cs in
      match r with
      | Raise e => (Raise e, tr)
      | Ret _ => (do_reload p, tr ++ [p])
      end
  end.

(** [require_ready(func)], the decorator: the wait on the ready event
    (a [Timeout] is passed over), the check, the call.  [set_in_wait] tells
    whether someone calls [set_ready] while the caller waits. *)
Definition require_ready {A} (func : service -> result A * service)
    (set_in_wait : bool) (s : service) : result A * service :=
  let 'Svc n cs := s in
  let s := Svc (set_ready_event (ready_event n || set_in_wait) n) cs in
  if negb (ready s) then
    (Raise (RuntimeWarning "Service must be ready to call this method."), s)
  else func s.

(** [with service: body], through [__enter__] and [__exit__]: [__enter__]
    is [self.start()], [__exit__] is [self.stop()] and returns [None], so a
    fault of the body is raised again after it, unless [stop] raises. *)
Definition with_service {A} (cur : nat) (p : path) (s : service)
    (body : service -> result A * service)
  : result A * service * trace :=
  let '(r, s, tr) := start cur p s (PyBool true) in
  match r with
  | Raise e => (Raise e, s, tr)
  | Ret _ =>
      let '(rb, s) := body s in
      let '(rs, s, tr') := stop cur p s None in
      match rs with
      | Raise e' => (Raise e', s, tr ++ tr')
      | Ret _ => (rb, s, tr ++ tr')
      end
  end.

End Interface.

(** ** The registry of named services *)

Module Registry.
Import Lifecycle.

(** A dict from names to services: [Service._main_services] or a mock. *)
Definition dict := list (string * service).

(** [use_dict.get(name, None)] *)
Fixpoint get (name : string) (d : dict) : option service :=
  match d with
  | [] => None
  | (k, v) :: d' => if String.eqb name k then Some v else get name d'
  end.

(** [use_dict[name] = service] *)
Fixpoint setitem (name : string) (v : service) (d : dict) : dict :=
  match d with
  | [] => [(name, v)]
  | (k, v') :: d' =>
      if String.eqb name k then (k, v) :: d' else (k, v') :: setitem name v d'
  end.

(** The dict objects of a program: the class attribute and the mocks. *)
Inductive dict_ref := Main | Mock (i : nat).

Definition dict_ref_eqb (a b : dict_ref) : bool :=
  match a, b with
  | Main, Main => true
  | Mock i, Mock j => Nat.eqb i j
  | _, _ => false
  end.

Definition heap := dict_ref -> dict.

(** [Service.register_named_service(name, service, use_dict)] *)
Definition register_named_service (name : string) (v : service)
    (use_dict : dict_ref) (h : heap) : heap :=
  fun r => if dict_ref_eqb r use_dict then setitem name v (h r) else h r.

(** [Service._get_named_service(name, use_dict)] *)
Definition get_named_service (name : string) (use_dict : dict_ref) (h : heap)
  : option service :=
  get name (h use_dict).

(** [NamedService]: what [Service(name)] returns. *)
Record NamedService := { ns_name : string; ns_use_dict : dict_ref }.

(** [Service.__new__] for [cls == Service]: the dict is [mock_dict] when
    given, the name is the [name] keyword or else the first positional
    argument, and without either the index fails. *)
Definition new (args : list string) (kw_name : option string)
    (mock_dict : option nat) : result NamedService :=
  let use_dict := match mock_dict with Some i => Mock i | None => Main end in
  match kw_name, args with
  | Some name, _ => Ret {| ns_name := name; ns_use_dict := use_dict |}
  | None, name :: _ => Ret {| ns_name := name; ns_use_dict := use_dict |}
  | None, [] =>
      Raise (Exn ["IndexError"; "LookupError"; "StandardError"; "Exception";
                  "BaseException"] "tuple index out of range")
  end.

(** [NamedService.value], also what [__get__] returns: looked up at each
    access. *)
Definition value (ns : NamedService) (h : heap) : option service :=
  get_named_service (ns_name ns) (ns_use_dict ns) h.

End Registry.

(** ** Observations on whole trees *)

Module TreeObservations.
Import Lifecycle Observations.

(** A property of every child, services and foreign servers. *)
Definition all_children (P : service -> bool) (Q : baseserver -> bool)
    (cs : list child) : bool :=
  forallb (fun c => match c with CService s => P s | CServer b => Q b end) cs.

(** No service and no server of the tree is started. *)
Fixpoint all_stopped (s : service) : bool :=
  match s with
  | Svc n cs =>
      negb (started n)
      && all_children all_stopped (fun b => negb (bs_started b)) cs
  end.

(** Every service and every server of the tree is started. *)
Fixpoint all_started (s : service) : bool :=
  match s with
  | Svc n cs => started n && all_children all_started bs_started cs
  end.

(** Below a service that is not started nothing is started. *)
Fixpoint closed (s : service) : bool :=
  match s with
  | Svc n cs =>
      (started n || all_children all_stopped (fun b => negb (bs_started b)) cs)
      && all_children closed (fun _ => true) cs
  end.

(** The tree has no foreign server in a child list. *)
Fixpoint only_services (s : service) : bool :=
  match s with
  | Svc n cs => all_children only_services (fun _ => false) cs
  end.

(** What a start and stop cycle is to preserve: the tree with the flags,
    the events and the groups blanked. *)
Definition blank (n : node) : node :=
  Node (class_name n) (stop_timeout n) (ready_timeout n) false false false []
       (error_handlers n) (hk n).

Fixpoint configuration (s : service) : service :=
  match s with
  | Svc n cs =>
      Svc (blank n)
          (map (fun c => match c with
                         | CService s' => CService (configuration s')
                         | CServer b =>
                             CServer (BaseServer false (bs_start b) (bs_stop b))
                         end) cs)
  end.

(** The tree with the handler dicts blanked: what [catch] is to leave
    alone. *)
Fixpoint without_handlers (s : service) : service :=
  match s with
  | Svc n cs =>
      Svc (set_error_handlers [] n)
          (map (fun c => match c with
                         | CService s' => CService (without_handlers s')
                         | CServer b => CServer b
                         end) cs)
  end.

(** The service at a path below [s], if there is one. *)
Fixpoint service_at (q : path) (s : service) : option service :=
  match q with
  | [] => Some s
  | i :: q' =>
      match nth_error (children s) i with
      | Some (CService c) => service_at q' c
      | _ => None
      end
  end.

Section Postorder.
Variable child_postorder : path -> service -> list path.

Fixpoint postorder_children (p : path) (i : nat) (cs : list child)
  : list path :=
  match cs with
  | [] => []
  | CService s' :: rest =>
      child_postorder (p ++ [i]) s' ++ postorder_children p (S i) rest
  | CServer _ :: rest => postorder_children p (S i) rest
  end.
End Postorder.

(** The services of a tree, children before their parent, in list order. *)
Fixpoint postorder (p : path) (s : service) : list path :=
  match s with
  | Svc n cs => postorder_children postorder p 0 cs ++ [p]
  end.

(** The effects of a call of [stop]. *)
Definition is_stop_effect (a : action) : bool :=
  match a with
  | PreStop | DoStop | PostStop | SetStarted false | SetStopped | SpawnStop
  | ServerStop | Join _ | Kill _ _ => true
  | _ => false
  end.

Definition is_wait (a : action) : bool :=
  match a with WaitReady _ => true | _ => false end.

(** The effects [stop] has, and those the [try] suite of [start] has when
    called with [block_until_ready]: it waits only for [True]. *)
Definition emitted_by_stop (a : action) : bool :=
  match a with
  | ClearReady => true
  | _ => is_stop_effect a
  end.

Definition emitted_by_start (block_until_ready : pyval) (a : action) : bool :=
  match a with
  | PreStart | DoStart | PostStart | SetStarted true | ClearStopped
  | ClearReady | SetReady | ServerStart => true
  | WaitReady _ => py_is_True block_until_ready
  | _ => false
  end.

End TreeObservations.

(** ** Observations on the calls of handlers *)

Module HandlerObservations.
Import Interceptor.

(** The entries of one key, in order. *)
Definition of_key (k : kind) (t : table) : table :=
  filter (fun kv => String.eqb k (fst kv)) t.

(** The call of a handler returns and leaves the dict as it was. *)
Definition returns_unchanged (call : table -> func -> outcome) (t : table)
    (h : func) : Prop :=
  exists v, fst (call t h) = (Some (Ret v), t).

(** The callables that run when the handlers of the entries [l] are
    called one after the other on the dict [t], in order. *)
Definition calls (call : table -> func -> outcome) (t : table) (l : table)
  : list nat :=
  flat_map (fun kv => snd (call t (fst (snd kv)))) l.

End HandlerObservations.

(** * Properties of the lifecycle *)

Module LifecycleFacts.
Import Lifecycle Observations.

(** The two methods, one step unfolded. *)
Lemma stop_eq cur p n cs timeout :
  stop cur p (Svc n cs) timeout =
  if in_group cur n then (Ret tt, Svc n cs, [(p, SpawnStop)])
  else
    let n1 := set_started false n in
    let '(r, cs', tr) := stop_body (fun q s' => stop cur q s' None) p n1 cs in
    let '(n2, tr_c) := cleanup p timeout n1 in
    let tr := (p, SetStarted false) :: tr ++ tr_c ++ [(p, PostStop)] in
    match post_stop (hk n2) with
    | Raise e => (Raise e, Svc n2 cs', tr)
    | Ret _ => (r, Svc n2 cs', tr)
    end.
Proof. reflexivity. Qed.

Lemma start_eq cur p n cs bur :
  start cur p (Svc n cs) bur =
  if started n then
    (Raise (RuntimeWarning (class_name n ++ " already started")), Svc n cs, [])
  else
    let n0 := set_ready_event false (set_stopped_event false n) in
    let '(r, n1, cs', tr) :=
      start_body (fun q s' => start cur q s' bur) p bur n0 cs in
    let tr := (p, ClearStopped) :: (p, ClearReady) :: tr in
    match r with
    | Ret _ => (Ret tt, Svc n1 cs', tr)
    | Raise e =>
        let '(r', s', tr') := stop cur p (Svc n1 cs') None in
        match r' with
        | Raise e' => (Raise e', s', tr ++ tr')
        | Ret _ => (Raise e, s', tr ++ tr')
        end
    end.
Proof. reflexivity. Qed.

#[local] Arguments stop : simpl never.
#[local] Arguments start : simpl never.

(** What [cleanup] does to the node and which effects it has. *)
Lemma cleanup_spec p timeout n :
  let t := match timeout with None => stop_timeout n | Some t => t end in
  exists n',
    cleanup p timeout n =
      (n', (match greenlets n with
            | [] => []
            | _ :: _ => [(p, Join t); (p, Kill true 1)]
            end) ++ [(p, ClearReady); (p, SetStopped)])
    /\ started n' = started n
    /\ ready_event n' = false
    /\ stopped_event n' = true
    /\ greenlets n' = kill (join t (greenlets n))
    /\ hk n' = hk n.
Proof.
  unfold cleanup. destruct (greenlets n) eqn:G; cbn.
  - eexists; split; [reflexivity|]. cbn. rewrite G. auto.
  - eexists; split; [reflexivity|]. cbn. auto.
Qed.

(** The setters commute with the fields they do not set. *)
Lemma start_body_node child_start p bur n cs r n1 cs1 tr :
  start_body child_start p bur n cs = (r, n1, cs1, tr) ->
  greenlets n1 = greenlets n /\ hk n1 = hk n
  /\ stopped_event n1 = stopped_event n
  /\ error_handlers n1 = error_handlers n.
Proof.
  unfold start_body, call_do_start, after_do_start.
  destruct (pre_start (hk n)); [|intros [= <- <- <- <-]; auto].
  destruct (start_children child_start p 0 cs) as [[r1 cs'] tr1].
  destruct r1; [|intros [= <- <- <- <-]; auto].
  destruct (ds_set_ready (do_start (hk n))); cbn;
    (destruct (ds_out (do_start (hk n))) as [v|e];
     [|intros [= <- <- <- <-]; auto]);
    destruct (py_eq v NOT_READY), (py_is_True bur); cbn;
    intros [= <- <- <- <-]; auto.
Qed.

(** After a [stop] that is not deferred the service is not started, not
    ready, and its stopped event is set. *)
Lemma stop_flags cur p n cs timeout r s' tr :
  in_group cur n = false ->
  stop cur p (Svc n cs) timeout = (r, s', tr) ->
  started (node_of s') = false
  /\ ready_event (node_of s') = false
  /\ stopped_event (node_of s') = true.
Proof.
  intros Hg. rewrite stop_eq, Hg. cbn zeta.
  destruct (stop_body _ p (set_started false n) cs) as [[r0 cs'] tr0].
  destruct (cleanup_spec p timeout (set_started false n))
    as (n' & Hc & Hst & Hr & Hsp & _).
  rewrite Hc. destruct (post_stop (hk n')); intros [= <- <- <-]; cbn; auto.
Qed.

(** Induction over a service tree: the children that are services satisfy
    the property. *)
Lemma service_induction (P : service -> Prop) :
  (forall n cs, Forall (on_services P) cs -> P (Svc n cs)) ->
  forall s, P s.
Proof.
  intros step. fix IH 1. intros [n cs]. apply step.
  induction cs as [|c cs IHcs]; constructor.
  - destruct c as [s'|b]; [apply IH | exact I].
  - exact IHcs.
Qed.

(** The effects of a call stay in the subtree of the service it is made
    on. *)
Lemma below_app q tr1 tr2 : below q tr1 -> below q tr2 -> below q (tr1 ++ tr2).
Proof. unfold below. rewrite Forall_app. auto. Qed.

Lemma below_here (q : path) (a : action) : exists r, fst (q, a) = q ++ r.
Proof. exists []. cbn. now rewrite app_nil_r. Qed.

Lemma below_child q i tr : below (q ++ [i]) tr -> below q tr.
Proof.
  unfold below. apply Forall_impl. intros ev [r H].
  exists (i :: r). now rewrite H, <- app_assoc.
Qed.

Lemma below_cons q (a : action) tr : below q tr -> below q ((q, a) :: tr).
Proof. intros H. constructor; [apply below_here | exact H]. Qed.

Lemma below_nil q : below q [].
Proof. constructor. Qed.

Lemma cleanup_below p timeout n : below p (snd (cleanup p timeout n)).
Proof.
  unfold cleanup. destruct (greenlets n); cbn; repeat apply below_cons;
    apply below_nil.
Qed.

Section Below.
Variable child_call : path -> service -> result unit * service * trace.
Variable cs0 : list child.
Hypothesis child_below :
  Forall (on_services (fun s => forall q, below q (snd (child_call q s)))) cs0.

Lemma stop_children_below p : forall cs i,
  incl cs cs0 -> below p (snd (stop_children child_call p i cs)).
Proof.
  induction cs as [|c cs IH]; intros i Hin; cbn; [apply below_nil|].
  assert (Hc : In c cs0) by (apply Hin; now left).
  assert (Hcs : incl cs cs0) by (intros x Hx; apply Hin; now right).
  specialize (IH (S i) Hcs).
  destruct (stop_children child_call p (S i) cs) as [[r rest] tr].
  destruct r; cbn in *; [|exact IH].
  unfold stop_child. destruct (child_started c).
  - destruct c as [s'|b].
    + rewrite Forall_forall in child_below.
      pose proof (child_below _ Hc (p ++ [i])) as B. cbn in B.
      destruct (child_call (p ++ [i]) s') as [[r' s''] tr']. cbn in *.
      apply below_app; [exact IH | eapply below_child; exact B].
    + cbn. apply below_app; [exact IH|].
      eapply below_child. apply below_cons, below_nil.
  - cbn. rewrite app_nil_r. exact IH.
Qed.

End Below.

Lemma stop_below cur : forall s p timeout, below p (snd (stop cur p s timeout)).
Proof.
  intros s. induction s as [n cs IH] using service_induction. intros p timeout.
  rewrite stop_eq. destruct (in_group cur n); [apply below_cons, below_nil|].
  cbn zeta.
  assert (B : below p (snd (stop_body (fun q s' => stop cur q s' None) p
                                      (set_started false n) cs))).
  { unfold stop_body. destruct (pre_stop _); [|apply below_cons, below_nil].
    pose proof (@stop_children_below (fun q s' => stop cur q s' None) cs) as L.
    specialize (L ltac:(eapply Forall_impl; [|exact IH];
                        intros [s'|b]; cbn; auto) p cs 0%nat (incl_refl _)).
    destruct (stop_children _ p 0 cs) as [[r cs'] tr]. cbn in L.
    destruct r; cbn; apply below_cons; [|exact L].
    apply below_app; [exact L | apply below_cons, below_nil]. }
  destruct (stop_body _ p (set_started false n) cs) as [[r cs'] tr].
  pose proof (cleanup_below p timeout (set_started false n)) as C.
  destruct (cleanup p timeout (set_started false n)) as [n2 trc]. cbn in B, C.
  assert (below p ((p, SetStarted false) :: tr ++ trc ++ [(p, PostStop)])).
  { apply below_cons, below_app; [exact B|].
    apply below_app; [exact C | apply below_cons, below_nil]. }
  destruct (post_stop (hk n2)); exact H.
Qed.



(** The try suite of a start that succeeded ended with [started = True]. *)
Lemma start_ok_started cur p s bur s' tr :
  start cur p s bur = (Ret tt, s', tr) -> started (node_of s') = true.
Proof.
  destruct s as [n cs]. rewrite start_eq.
  destruct (started n); [discriminate|]. cbn zeta.
  set (n0 := set_ready_event false (set_stopped_event false n)).
  unfold start_body. destruct (pre_start (hk n0)).
  2:{ destruct (stop cur p _ None) as [[r' s''] tr']; destruct r'; discriminate. }
  destruct (start_children _ p 0 cs) as [[r cs'] tr1]. destruct r.
  2:{ destruct (stop cur p _ None) as [[r' s''] tr']; destruct r'; discriminate. }
  destruct (call_do_start p n0) as [[r n1] tr2]. destruct r as [v|e].
  2:{ destruct (stop cur p _ None) as [[r' s''] tr']; destruct r'; discriminate. }
  destruct (after_do_start p bur v n1) as [n2 tr3].
  destruct (post_start (hk (set_started true n2))).
  - intros [= <- <-]. reflexivity.
  - destruct (stop cur p _ None) as [[r' s''] tr']; destruct r'; discriminate.
Qed.

Lemma call_do_start_hk p n : hk (snd (fst (call_do_start p n))) = hk n.
Proof. unfold call_do_start. destruct (ds_set_ready _); reflexivity. Qed.

Lemma after_do_start_hk p bur v n : hk (fst (after_do_start p bur v n)) = hk n.
Proof.
  unfold after_do_start.
  destruct (_ && _); [reflexivity|]. destruct (negb _); reflexivity.
Qed.

(** A start that returns went through the whole try suite. *)
Lemma start_ok_inv cur p n cs bur s' tr :
  start cur p (Svc n cs) bur = (Ret tt, s', tr) ->
  let n0 := set_ready_event false (set_stopped_event false n) in
  exists cs' tr1 v n1 tr2 n2 tr3,
    started n = false
    /\ pre_start (hk n) = Ret tt
    /\ start_children (fun q c => start cur q c bur) p 0 cs = (Ret tt, cs', tr1)
    /\ call_do_start p n0 = (Ret v, n1, tr2)
    /\ after_do_start p bur v n1 = (n2, tr3)
    /\ post_start (hk n) = Ret tt
    /\ s' = Svc (set_started true n2) cs'
    /\ tr = (p, ClearStopped) :: (p, ClearReady) :: (p, PreStart)
              :: tr1 ++ tr2 ++ tr3 ++ [(p, SetStarted true); (p, PostStart)].
Proof.
  rewrite start_eq. destruct (started n) eqn:Hs; [discriminate|]. cbn zeta.
  set (n0 := set_ready_event false (set_stopped_event false n)).
  destruct (start_body _ p bur n0 cs) as [[[r n1'] cs1] tr0] eqn:Hb.
  destruct r.
  2:{ destruct (stop cur p _ None) as [[r' s''] tr']; destruct r'; discriminate. }
  intros [= <- <-]. revert Hb. unfold start_body.
  replace (hk n0) with (hk n) by reflexivity.
  destruct (pre_start (hk n)) as [[]|]; [|discriminate].
  destruct (start_children _ p 0 cs) as [[r cs'] tr1]. destruct r as [[]|];
    [|discriminate].
  destruct (call_do_start p n0) as [[r n1] tr2] eqn:Hd.
  destruct r as [v|]; [|discriminate].
  destruct (after_do_start p bur v n1) as [n2 tr3] eqn:Ha.
  assert (Hk : hk (set_started true n2) = hk n).
  { apply (f_equal (fun x => hk (snd (fst x)))) in Hd.
    apply (f_equal (fun x => hk (fst x))) in Ha.
    rewrite call_do_start_hk in Hd. rewrite after_do_start_hk in Ha.
    cbn in Hd, Ha. cbn. congruence. }
  rewrite Hk. intros [= H1 <- <- <-].
  exists cs', tr1, v, n1, tr2, n2, tr3. rewrite H1. destruct a.
  repeat split; assumption.
Qed.




(** *** The stop order read off a trace *)

Lemma strip_app p r : strip p (p ++ r) = Some r.
Proof. induction p as [|x p IH]; cbn; [|rewrite Nat.eqb_refl]; auto. Qed.

Lemma strip_refl p : strip p p = Some [].
Proof. rewrite <- (app_nil_r p) at 2. apply strip_app. Qed.

Lemma stop_order_app p t1 t2 :
  stop_order p (t1 ++ t2) = stop_order p t1 ++ stop_order p t2.
Proof. apply flat_map_app. Qed.

Lemma stop_order_cons_child p i a tr :
  stop_order p ((p ++ [i], a) :: tr) =
  (if is_stop_entry a then [i] else []) ++ stop_order p tr.
Proof.
  unfold stop_order. cbn [flat_map fst snd]. rewrite strip_app. reflexivity.
Qed.

Lemma stop_order_cons_here p a tr :
  stop_order p ((p, a) :: tr) = stop_order p tr.
Proof.
  unfold stop_order. cbn [flat_map fst snd].
  rewrite strip_refl. destruct (is_stop_entry a); reflexivity.
Qed.

(** Effects strictly below the children of [p] do not count. *)
Lemma stop_order_deep p i tr :
  Forall (fun ev => exists j r, fst ev = (p ++ [i]) ++ j :: r) tr ->
  stop_order p tr = [].
Proof.
  induction 1 as [|[q a] tr (j & r & E) _ IH]; [reflexivity|].
  cbn [fst] in E. subst q. unfold stop_order in *. cbn [flat_map fst snd].
  rewrite IH, <- app_assoc, strip_app. cbn [app].
  destruct (is_stop_entry a); reflexivity.
Qed.

Lemma stop_children_deep cur q : forall cs i,
  Forall (fun ev => exists j r, fst ev = q ++ j :: r)
         (snd (stop_children (fun q' s => stop cur q' s None) q i cs)).
Proof.
  induction cs as [|c cs IH]; intros i; cbn; [constructor|].
  specialize (IH (S i)).
  destruct (stop_children _ q (S i) cs) as [[r rest] tr].
  destruct r; cbn in *; [|exact IH].
  assert (B : below (q ++ [i])
                (snd (stop_child (fun q' s => stop cur q' s None) q i c))).
  { unfold stop_child. destruct (child_started c); [|apply below_nil].
    destruct c as [s|b].
    - pose proof (stop_below cur s (q ++ [i]) None) as B.
      destruct (stop cur (q ++ [i]) s None) as [[r' s'] tr']. exact B.
    - cbn. apply below_cons, below_nil. }
  destruct (stop_child _ q i c) as [[r' c'] tr']. cbn in *.
  apply Forall_app. split; [exact IH|].
  revert B. apply Forall_impl. intros ev [r E]. exists i, r.
  now rewrite E, <- app_assoc.
Qed.

(** A call of [stop] on child [i] of [p] counts once. *)
Lemma stop_order_stop cur p i s timeout :
  stop_order p (snd (stop cur (p ++ [i]) s timeout)) = [i].
Proof.
  destruct s as [n cs]. rewrite stop_eq.
  destruct (in_group cur n); [cbn [snd]; now rewrite stop_order_cons_child|].
  cbn zeta. set (q := p ++ [i]).
  assert (B : stop_order p (snd (stop_body (fun q' s => stop cur q' s None) q
                                           (set_started false n) cs)) = []).
  { unfold stop_body. destruct (pre_stop _);
      [|cbn [snd]; unfold q; now rewrite stop_order_cons_child].
    pose proof (stop_children_deep cur q cs 0) as D.
    destruct (stop_children _ q 0 cs) as [[r cs'] tr]. cbn [snd] in D.
    apply stop_order_deep in D.
    destruct r; cbn [snd]; unfold q; rewrite stop_order_cons_child;
      rewrite ?stop_order_app, D; [rewrite stop_order_cons_child|];
      reflexivity. }
  destruct (stop_body _ q (set_started false n) cs) as [[r cs'] tr].
  cbn [snd] in B.
  assert (C : stop_order p (snd (cleanup q timeout (set_started false n))) = []).
  { unfold cleanup, q. destruct (greenlets _); cbn [snd app];
      rewrite !stop_order_cons_child; reflexivity. }
  destruct (cleanup q timeout (set_started false n)) as [n2 trc]. cbn [snd] in C.
  assert (stop_order p ((q, SetStarted false) :: tr ++ trc ++ [(q, PostStop)])
          = [i]).
  { unfold q. rewrite stop_order_cons_child, !stop_order_app.
    fold q. rewrite B, C. unfold q. rewrite stop_order_cons_child. reflexivity. }
  destruct (post_stop (hk n2)); exact H.
Qed.

Lemma stop_order_stop_child cur p i c :
  stop_order p (snd (stop_child (fun q s => stop cur q s None) p i c)) =
  if child_started c then [i] else [].
Proof.
  unfold stop_child. destruct (child_started c); [|reflexivity].
  destruct c as [s|b].
  - pose proof (stop_order_stop cur p i s None) as H.
    destruct (stop cur (p ++ [i]) s None) as [[r s'] tr]. exact H.
  - cbn [server_stop snd]. now rewrite stop_order_cons_child.
Qed.

(** A child loop of [stop] that went through handled the children from
    the last to the first, each as it was before the loop. *)
Lemma stop_children_ok f p : forall cs i cs' tr,
  stop_children f p i cs = (Ret tt, cs', tr) ->
  tr = flat_map (fun ic => snd (stop_child f p (fst ic) (snd ic)))
                (rev (indexed i cs)).
Proof.
  induction cs as [|c cs IH]; intros i cs' tr; cbn [stop_children].
  - intros [= <- <-]. reflexivity.
  - destruct (stop_children f p (S i) cs) as [[r rest] tr1] eqn:Hr.
    destruct r as [[]|]; [|discriminate].
    destruct (stop_child f p i c) as [[r c'] tr2] eqn:Hc.
    intros [= -> <- <-]. rewrite (IH _ _ _ Hr).
    unfold indexed. cbn [List.length seq combine rev].
    rewrite flat_map_app. cbn [flat_map fst snd]. rewrite ?Hc.
    cbn [snd]. now rewrite app_nil_r.
Qed.

Lemma stop_order_rev cur p : forall l : list (nat * child),
  stop_order p
    (flat_map (fun ic => snd (stop_child (fun q s => stop cur q s None) p
                                         (fst ic) (snd ic))) (rev l))
  = rev (map fst (filter (fun ic => child_started (snd ic)) l)).
Proof.
  induction l as [|[i c] l IH]; [reflexivity|].
  cbn [rev filter snd]. rewrite flat_map_app, stop_order_app, IH.
  cbn [flat_map fst snd]. rewrite app_nil_r, stop_order_stop_child.
  destruct (child_started c); cbn [map rev fst]; [reflexivity|].
  now rewrite app_nil_r.
Qed.

(** *** Properties of the whole tree kept by the child loops *)

Lemma all_services_cons P c cs :
  all_services P (c :: cs) =
  (match c with CService s => P s | CServer _ => true end) && all_services P cs.
Proof. reflexivity. Qed.

Section Keep.
Variable child_call : path -> service -> result unit * service * trace.
Variable P : service -> bool.
Variable cs0 : list child.
Hypothesis child_keeps :
  Forall (on_services
            (fun s => forall q, P s = true ->
                                P (snd (fst (child_call q s))) = true)) cs0.

Lemma child_keeps_at s q :
  In (CService s) cs0 -> P s = true -> P (snd (fst (child_call q s))) = true.
Proof.
  intros Hin. rewrite Forall_forall in child_keeps.
  exact (child_keeps _ Hin q).
Qed.

Lemma stop_children_keep p : forall cs i,
  incl cs cs0 -> all_services P cs = true ->
  all_services P (snd (fst (stop_children child_call p i cs))) = true.
Proof.
  induction cs as [|c cs IH]; intros i Hin; cbn [stop_children]; [auto|].
  rewrite all_services_cons, andb_true_iff. intros [Hc Hcs].
  assert (Hc0 : In c cs0) by (apply Hin; now left).
  assert (Hcs0 : incl cs cs0) by (intros x Hx; apply Hin; now right).
  specialize (IH (S i) Hcs0 Hcs).
  destruct (stop_children child_call p (S i) cs) as [[r rest] tr].
  cbn [fst snd] in IH.
  destruct r; cbn [fst snd];
    [|rewrite all_services_cons, Hc, IH; reflexivity].
  unfold stop_child. destruct (child_started c);
    [|cbn [fst snd]; rewrite all_services_cons, Hc, IH; reflexivity].
  destruct c as [s|b].
  - pose proof (@child_keeps_at s (p ++ [i]) Hc0 Hc) as K.
    destruct (child_call (p ++ [i]) s) as [[r' s'] tr']. cbn [fst snd] in *.
    rewrite all_services_cons, K, IH. reflexivity.
  - cbn [server_stop fst snd]. rewrite all_services_cons, IH. reflexivity.
Qed.

Lemma start_children_keep p : forall cs i,
  incl cs cs0 -> all_services P cs = true ->
  all_services P (snd (fst (start_children child_call p i cs))) = true.
Proof.
  induction cs as [|c cs IH]; intros i Hin; cbn [start_children]; [auto|].
  rewrite all_services_cons, andb_true_iff. intros [Hc Hcs].
  assert (Hc0 : In c cs0) by (apply Hin; now left).
  assert (Hcs0 : incl cs cs0) by (intros x Hx; apply Hin; now right).
  specialize (IH (S i) Hcs0 Hcs).
  assert (K : all_services P [snd (fst (start_child child_call p i c))] = true).
  { unfold start_child. destruct c as [s|b].
    - destruct (negb _); [|cbn; now rewrite Hc].
      pose proof (@child_keeps_at s (p ++ [i]) Hc0 Hc) as K.
      destruct (child_call (p ++ [i]) s) as [[r' s'] tr']. cbn in *.
      now rewrite K.
    - destruct (negb _); reflexivity. }
  destruct (start_child child_call p i c) as [[r c'] tr]. cbn [fst snd] in K.
  rewrite all_services_cons, andb_true_r in K.
  destruct r; cbn [fst snd];
    [|rewrite all_services_cons, K, Hcs; reflexivity].
  destruct (start_children child_call p (S i) cs) as [[r rest] tr'].
  cbn [fst snd] in *. rewrite all_services_cons, K, IH. reflexivity.
Qed.

Lemma stop_body_keep p n cs :
  incl cs cs0 -> all_services P cs = true ->
  all_services P (snd (fst (stop_body child_call p n cs))) = true.
Proof.
  intros Hin Hcs. unfold stop_body. destruct (pre_stop _); [|exact Hcs].
  pose proof (@stop_children_keep p cs 0%nat Hin Hcs) as K.
  destruct (stop_children child_call p 0 cs) as [[r cs'] tr].
  destruct r; exact K.
Qed.

Lemma start_body_keep p bur n cs :
  incl cs cs0 -> all_services P cs = true ->
  all_services P (snd (fst (start_body child_call p bur n cs))) = true.
Proof.
  intros Hin Hcs. unfold start_body. destruct (pre_start _); [|exact Hcs].
  pose proof (@start_children_keep p cs 0%nat Hin Hcs) as K.
  destruct (start_children child_call p 0 cs) as [[r cs'] tr].
  destruct r; [|exact K].
  destruct (call_do_start p n) as [[r n1] tr2].
  destruct r as [v|]; [|exact K].
  destruct (after_do_start p bur v n1). exact K.
Qed.
End Keep.

Lemma all_services_and A B cs :
  all_services (fun s => A s && B s) cs = all_services A cs && all_services B cs.
Proof.
  induction cs as [|[s|b] cs IH]; [reflexivity| |exact IH].
  rewrite !all_services_cons, IH.
  destruct (A s), (B s), (all_services A cs); reflexivity.
Qed.

(** The service a call of [stop] or [start] leaves behind. *)
Lemma stop_result cur p n cs t :
  in_group cur n = false ->
  snd (fst (stop cur p (Svc n cs) t)) =
  Svc (fst (cleanup p t (set_started false n)))
      (snd (fst (stop_body (fun q s => stop cur q s None) p
                           (set_started false n) cs))).
Proof.
  intros Hg. rewrite stop_eq, Hg. cbn zeta.
  destruct (stop_body _ p (set_started false n) cs) as [[r cs'] tr].
  destruct (cleanup p t (set_started false n)) as [n2 trc].
  destruct (post_stop (hk n2)); reflexivity.
Qed.

Lemma start_result cur p n cs bur :
  started n = false ->
  let b := start_body (fun q s => start cur q s bur) p bur
                      (set_ready_event false (set_stopped_event false n)) cs in
  let s1 := Svc (snd (fst (fst b))) (snd (fst b)) in
  snd (fst (start cur p (Svc n cs) bur)) =
  match fst (fst (fst b)) with
  | Ret _ => s1
  | Raise _ => snd (fst (stop cur p s1 None))
  end.
Proof.
  intros Hs. rewrite start_eq, Hs. cbn zeta.
  destruct (start_body _ p bur _ cs) as [[[r n1] cs1] tr]. cbn [fst snd].
  destruct r; [reflexivity|].
  destruct (stop cur p (Svc n1 cs1) None) as [[r' s'] tr'].
  destruct r'; reflexivity.
Qed.

(** [stop] closes the gate of every service it stops and leaves the other
    services alone. *)
Lemma stop_gate cur : forall s p t,
  (in_group cur (node_of s) = true -> gate_ok s = true) ->
  all_services gate_ok (children s) = true ->
  gate_ok (snd (fst (stop cur p s t))) = true.
Proof.
  intros s. induction s as [n cs IH] using service_induction.
  intros p t Hroot Hcs. cbn [node_of children] in *.
  destruct (in_group cur n) eqn:Hg.
  - rewrite stop_eq, Hg. cbn [fst snd]. auto.
  - rewrite stop_result by exact Hg.
    destruct (cleanup_spec p t (set_started false n)) as (n' & Hc & _ & Hr & _).
    rewrite Hc. cbn [fst gate_ok]. rewrite Hr, orb_true_r. cbn [andb].
    apply stop_body_keep with (cs0 := cs); [|apply incl_refl|exact Hcs].
    revert IH. apply Forall_impl. intros [s'|b]; cbn [on_services]; [|auto].
    intros H q Hok. apply H; [auto|].
    destruct s'. cbn [gate_ok children] in *.
    now apply andb_true_iff in Hok.
Qed.

(** A greenlet outside the tree's groups stays outside. *)
Lemma stop_outside cur g : forall s p t,
  outside g s = true -> outside g (snd (fst (stop cur p s t))) = true.
Proof.
  intros s. induction s as [n cs IH] using service_induction.
  intros p t Ho. destruct (in_group cur n) eqn:Hg.
  - rewrite stop_eq, Hg. exact Ho.
  - rewrite stop_result by exact Hg.
    destruct (cleanup_spec p t (set_started false n))
      as (n' & Hc & _ & _ & _ & Hgr & _).
    rewrite Hc. cbn [fst outside] in *. apply andb_true_iff in Ho as [_ Hcs].
    unfold in_group at 1. rewrite Hgr. cbn [kill existsb negb andb].
    apply stop_body_keep with (cs0 := cs); [|apply incl_refl|exact Hcs].
    revert IH. apply Forall_impl. intros [s'|b]; cbn [on_services]; auto.
Qed.

Lemma start_outside cur g bur : forall s p,
  outside g s = true -> outside g (snd (fst (start cur p s bur))) = true.
Proof.
  intros s. induction s as [n cs IH] using service_induction.
  intros p Ho. destruct (started n) eqn:Hs.
  - rewrite start_eq, Hs. exact Ho.
  - rewrite start_result by exact Hs. cbn zeta.
    set (n0 := set_ready_event false (set_stopped_event false n)).
    assert (O1 : outside g (Svc (snd (fst (fst (start_body
                   (fun q s => start cur q s bur) p bur n0 cs))))
                   (snd (fst (start_body (fun q s => start cur q s bur)
                                         p bur n0 cs)))) = true).
    { cbn [outside] in *. apply andb_true_iff in Ho as [Hn Hcs].
      apply andb_true_iff. split.
      - destruct (start_body _ p bur n0 cs) as [[[r n1] cs1] tr] eqn:Hb.
        apply start_body_node in Hb as (Hgr & _). cbn [fst snd].
        unfold in_group in *. rewrite Hgr. exact Hn.
      - apply start_body_keep with (cs0 := cs); [|apply incl_refl|exact Hcs].
        revert IH. apply Forall_impl. intros [s'|b]; cbn [on_services]; auto. }
    destruct (fst (fst (fst _))); [exact O1|].
    apply stop_outside. exact O1.
Qed.

Lemma start_body_ok_started child_start p bur n cs a n1 cs1 tr :
  start_body child_start p bur n cs = (Ret a, n1, cs1, tr) -> started n1 = true.
Proof.
  unfold start_body. destruct (pre_start _); [|discriminate].
  destruct (start_children child_start p 0 cs) as [[r cs'] tr1].
  destruct r; [|discriminate].
  destruct (call_do_start p n) as [[r n2] tr2]. destruct r as [v|]; [|discriminate].
  destruct (after_do_start p bur v n2) as [n3 tr3].
  intros [= _ <- _ _]. reflexivity.
Qed.

(** [start], called from outside the tree's groups, keeps the gates
    closed wherever [started] is false. *)
Lemma start_gate cur bur : forall s p,
  outside cur s = true -> gate_ok s = true ->
  gate_ok (snd (fst (start cur p s bur))) = true.
Proof.
  intros s. induction s as [n cs IH] using service_induction.
  intros p Ho Hok. destruct (started n) eqn:Hs.
  - rewrite start_eq, Hs. exact Hok.
  - rewrite start_result by exact Hs. cbn zeta.
    set (n0 := set_ready_event false (set_stopped_event false n)).
    cbn [outside gate_ok] in Ho, Hok.
    apply andb_true_iff in Ho as [Hn Ho]. apply andb_true_iff in Hok as [_ Hok].
    assert (K : all_services gate_ok
                  (snd (fst (start_body (fun q s => start cur q s bur)
                                        p bur n0 cs))) = true).
    { assert (K : all_services (fun s => outside cur s && gate_ok s)
                    (snd (fst (start_body (fun q s => start cur q s bur)
                                          p bur n0 cs))) = true).
      { apply start_body_keep with (cs0 := cs); [|apply incl_refl|].
        - revert IH. apply Forall_impl. intros [s'|b]; cbn [on_services]; [|auto].
          intros H q Hb. apply andb_true_iff in Hb as [Hb1 Hb2].
          rewrite start_outside by exact Hb1. rewrite H by assumption.
          reflexivity.
        - rewrite all_services_and, Ho, Hok. reflexivity. }
      rewrite all_services_and in K. now apply andb_true_iff in K. }
    destruct (start_body _ p bur n0 cs) as [[[r n1] cs1] tr] eqn:Hb.
    cbn [fst snd] in *. destruct r.
    + cbn [gate_ok]. rewrite (start_body_ok_started _ _ _ _ _ Hb), K. reflexivity.
    + apply stop_gate; [|exact K]. cbn [node_of].
      apply start_body_node in Hb as (Hgr & _).
      unfold in_group in *. rewrite Hgr.
      change (greenlets n0) with (greenlets n). intros Hin.
      rewrite Hin in Hn. discriminate Hn.
Qed.

(** The states [serve_forever] goes through. *)
Lemma ensure_started_state cur p s cb :
  snd (fst (ensure_started cur p s cb)) = s
  \/ snd (fst (ensure_started cur p s cb))
     = snd (fst (start cur p s (PyBool true))).
Proof.
  unfold ensure_started. destruct (negb _); [right|now left].
  destruct (start cur p s (PyBool true)) as [[r s1] tr1].
  destruct r, cb; reflexivity.
Qed.

Lemma wait_stopped_state cur p s t w :
  snd (fst (wait_stopped cur p s t w)) = s
  \/ (exists g t', snd (fst (wait_stopped cur p s t w))
                   = snd (fst (stop g p s t'))).
Proof.
  unfold wait_stopped. destruct (stopped_event _); [now left|right].
  destruct w as [e|g t'].
  - exists cur, t. destruct (stop cur p s t) as [[r s1] tr1].
    destruct r; auto.
  - destruct (in_group g (node_of s)) eqn:Hg.
    + exists (spawned s), None. destruct s as [n cs]. cbn [node_of] in Hg.
      rewrite (stop_eq g), Hg.
      destruct (stop (spawned (Svc n cs)) p (Svc n cs) None) as [[r s1] tr1].
      destruct (stopped_event _); reflexivity.
    + exists g, t'. destruct (stop g p s t') as [[r s1] tr1].
      destruct (stopped_event _); reflexivity.
Qed.

Lemma serve_forever_state cur p s t cb w :
  snd (fst (serve_forever cur p s t cb w))
  = snd (fst (ensure_started cur p s cb))
  \/ snd (fst (serve_forever cur p s t cb w))
     = snd (fst (wait_stopped cur p (snd (fst (ensure_started cur p s cb))) t w)).
Proof.
  unfold serve_forever.
  destruct (ensure_started cur p s cb) as [[r s1] tr1]. cbn [fst snd].
  destruct r; [right|now left].
  destruct (wait_stopped cur p s1 t w) as [[r' s2] tr2]. reflexivity.
Qed.

(** Every operation keeps a greenlet outside the tree's groups. *)
Lemma run_op_outside cur g s o :
  outside g s = true -> outside g (run_op cur s o) = true.
Proof.
  intros Ho. destruct o as [b|t| |t cb w]; cbn [run_op].
  - now apply start_outside.
  - now apply stop_outside.
  - destruct s. exact Ho.
  - assert (O1 : outside g (snd (fst (ensure_started cur [] s cb))) = true).
    { destruct (ensure_started_state cur [] s cb) as [-> | ->];
        [exact Ho | now apply start_outside]. }
    destruct (serve_forever_state cur [] s t cb w) as [-> | ->]; [exact O1|].
    destruct (wait_stopped_state cur [] (snd (fst (ensure_started cur [] s cb))) t w)
      as [-> | (g' & t' & ->)]; [exact O1 | now apply stop_outside].
Qed.

(** C7: a service whose [started] flag is set answers [start] with the
    double-start [RuntimeWarning]; nothing of the service changes, children
    included, and the call has no effect at all. *)
Theorem start_started_raises cur p s bur :
  started (node_of s) = true ->
  start cur p s bur =
    (Raise (RuntimeWarning (class_name (node_of s) ++ " already started")),
     s, []).
Proof.
  destruct s as [n cs]; cbn [node_of]; intros H.
  rewrite start_eq, H. reflexivity.
Qed.

(** So a second [start] right after one that returned raises and leaves
    the service started. *)
Lemma second_start_raises cur p s bur s1 tr bur' :
  start cur p s bur = (Ret tt, s1, tr) ->
  start cur p s1 bur' =
    (Raise (RuntimeWarning (class_name (node_of s1) ++ " already started")),
     s1, [])
  /\ started (node_of s1) = true.
Proof.
  intros H. apply start_ok_started in H. split; [|exact H].
  destruct s1 as [n cs]. cbn [node_of] in *. now rewrite start_eq, H.
Qed.

Lemma start_started_raises_witness :
  started (node_of Fixtures.busy) = true /\
  start 0 [] Fixtures.busy (PyBool true) =
    (Raise (RuntimeWarning "Worker already started"), Fixtures.busy, []).
Proof.
  split; [reflexivity|].
  apply (@start_started_raises 0 [] Fixtures.busy (PyBool true)). reflexivity.
Defined.

(** C10: [NOT_READY] is the integer 1 and [start] compares with [==], so
    a [do_start] that returns [True] is taken for the sentinel: in a start
    that meets no fault the ready event is not set by [start] (no [SetReady]
    effect), and when [block_until_ready is True] the caller waits on the
    ready event with [ready_timeout]; the event is then set only if
    someone calls [set_ready] during the wait.  The step after [do_start]
    is the same as for a hook that returns [NOT_READY] itself. *)
Theorem do_start_True_is_not_ready cur p n cs bur cs' tr1 w :
  started n = false ->
  pre_start (hk n) = Ret tt ->
  post_start (hk n) = Ret tt ->
  do_start (hk n) = StartHook false (Ret (PyBool true)) w ->
  start_children (fun q s' => start cur q s' bur) p 0 cs = (Ret tt, cs', tr1) ->
  let n0 := set_ready_event false (set_stopped_event false n) in
  py_eq (PyBool true) NOT_READY = true
  /\ after_do_start p bur (PyBool true) n0 = after_do_start p bur NOT_READY n0
  /\ start cur p (Svc n cs) bur =
       (Ret tt,
        Svc (set_started true
               (if py_is_True bur then set_ready_event w n0 else n0)) cs',
        (p, ClearStopped) :: (p, ClearReady) :: (p, PreStart) :: tr1
          ++ [(p, DoStart)]
          ++ (if py_is_True bur then [(p, WaitReady (ready_timeout n))] else [])
          ++ [(p, SetStarted true); (p, PostStart)]).
Proof.
  intros Hs Hpre Hpost Hdo Hcs n0.
  split; [reflexivity|]. split; [reflexivity|].
  rewrite start_eq, Hs. fold n0.
  unfold start_body. replace (hk n0) with (hk n) by reflexivity.
  rewrite Hpre, Hcs. unfold call_do_start.
  replace (hk n0) with (hk n) by reflexivity. rewrite Hdo. cbn [ds_set_ready ds_out].
  unfold after_do_start. replace (hk n0) with (hk n) by reflexivity.
  rewrite Hdo. cbn [py_eq NOT_READY Z.eqb Pos.eqb andb negb ds_ready_in_wait].
  destruct (py_is_True bur); cbn; rewrite Hpost; reflexivity.
Qed.

Lemma do_start_True_is_not_ready_witness :
  let n := new_node "S" Fixtures.returns_True in
  let n0 := set_ready_event false (set_stopped_event false n) in
  py_eq (PyBool true) NOT_READY = true
  /\ after_do_start [] (PyBool true) (PyBool true) n0
     = after_do_start [] (PyBool true) NOT_READY n0
  /\ start 0 [] (Svc n []) (PyBool true) =
       (Ret tt, Svc (set_started true (set_ready_event false n0)) [],
        [([], ClearStopped); ([], ClearReady); ([], PreStart); ([], DoStart);
         ([], WaitReady 2); ([], SetStarted true); ([], PostStart)]).
Proof.
  exact (@do_start_True_is_not_ready 0 [] (new_node "S" Fixtures.returns_True)
           [] (PyBool true) [] [] false
           eq_refl eq_refl eq_refl eq_refl eq_refl).
Defined.

(** C2 (as amended): a [stop] that is not called from one of the
    service's own greenlets runs the [finally] clause whatever the
    [pre_stop] hook, the child stops and the [do_stop] hook did or raised:
    when the group is not empty it is joined with the timeout given (or
    [stop_timeout] for [None]) and then killed with [block=True,
    timeout=1], in that order; then the ready event is cleared, the stopped
    event is set and [post_stop] is called. *)
Theorem stop_runs_cleanup cur p n cs timeout :
  in_group cur n = false ->
  let t := match timeout with None => stop_timeout n | Some t => t end in
  exists r n' cs',
    stop cur p (Svc n cs) timeout =
      (r, Svc n' cs',
       (p, SetStarted false)
         :: snd (stop_body (fun q s' => stop cur q s' None) p
                           (set_started false n) cs)
         ++ (match greenlets n with
             | [] => []
             | _ :: _ => [(p, Join t); (p, Kill true 1)]
             end)
         ++ [(p, ClearReady); (p, SetStopped); (p, PostStop)])
    /\ started n' = false
    /\ ready_event n' = false
    /\ stopped_event n' = true
    /\ greenlets n' = kill (join t (greenlets n)).
Proof.
  intros Hg t. rewrite stop_eq, Hg. cbn zeta.
  destruct (cleanup_spec p timeout (set_started false n))
    as (n' & Hc & Hst & Hr & Hsp & Hgr & Hhk).
  rewrite Hc.
  destruct (stop_body _ p (set_started false n) cs) as [[r cs'] tr].
  exists (match post_stop (hk n') with Raise e => Raise e | Ret _ => r end), n', cs'.
  split; [|auto].
  cbn [snd greenlets stop_timeout set_started]. fold t.
  rewrite <- (app_assoc _ _ [(p, PostStop)]).
  destruct (post_stop (hk n')); reflexivity.
Qed.

Lemma stop_runs_cleanup_witness :
  exists r n' cs',
    stop 0 [] Fixtures.busy (Some 3%Z) =
      (r, Svc n' cs',
       ([], SetStarted false)
         :: snd (stop_body (fun q s' => stop 0 q s' None) []
                           (set_started false Fixtures.busy_node) [])
         ++ [([], Join 3); ([], Kill true 1)]
         ++ [([], ClearReady); ([], SetStopped); ([], PostStop)])
    /\ started n' = false
    /\ ready_event n' = false
    /\ stopped_event n' = true
    /\ greenlets n' = kill (join 3 (greenlets Fixtures.busy_node)).
Proof.
  exact (@stop_runs_cleanup 0 [] Fixtures.busy_node [] (Some 3%Z) eq_refl).
Defined.

(** C2 as stated fails: called from greenlet 7, which belongs to the
    service's own group, [stop] only spawns the deferred stop and returns;
    the service is untouched (still started and ready, stopped event not
    set) and none of the cleanup effects took place. *)
Lemma stop_from_own_greenlet_skips_cleanup :
  stop 7 [] Fixtures.busy (Some 3%Z) = (Ret tt, Fixtures.busy, [([], SpawnStop)])
  /\ ready Fixtures.busy = true
  /\ ~ (exists r s' pre,
          stop 7 [] Fixtures.busy (Some 3%Z) =
            (r, s', pre ++ [([], Join 3); ([], Kill true 1); ([], ClearReady);
                            ([], SetStopped); ([], PostStop)])).
Proof.
  split; [reflexivity|]. split; [reflexivity|].
  intros (r & s' & pre & H).
  assert (L : List.length (snd (stop 7 [] Fixtures.busy (Some 3%Z))) = 1%nat)
    by reflexivity.
  rewrite H in L. cbn [snd] in L. rewrite length_app in L. cbn in L. lia.
Qed.

(** C1 (as amended): when the [try] suite of [start] raises [e] (in
    [pre_start], in a child's start, in [do_start], or in [post_start]
    after [started] was set), [start] calls [stop()] on the service as it
    is by then and its effects follow those of the suite; if that [stop]
    returns, [e] is re-raised, and if it raises, its fault is the one the
    caller gets.  Unless [start] runs in one of the service's own
    greenlets, the service is not started afterwards. *)
Theorem failed_start_stops cur p n cs bur e n1 cs1 tr :
  started n = false ->
  start_body (fun q s' => start cur q s' bur) p bur
             (set_ready_event false (set_stopped_event false n)) cs
    = (Raise e, n1, cs1, tr) ->
  exists r' s' tr',
    stop cur p (Svc n1 cs1) None = (r', s', tr')
    /\ start cur p (Svc n cs) bur =
         (match r' with Ret _ => Raise e | Raise e' => Raise e' end, s',
          (p, ClearStopped) :: (p, ClearReady) :: tr ++ tr')
    /\ (in_group cur n = false -> started (node_of s') = false).
Proof.
  intros Hs Hb. rewrite start_eq, Hs. cbn zeta. rewrite Hb.
  destruct (stop cur p (Svc n1 cs1) None) as [[r' s'] tr'] eqn:Hstop.
  exists r', s', tr'. split; [reflexivity|]. split.
  - destruct r'; reflexivity.
  - intros Hg. apply start_body_node in Hb as (Hgr & _).
    eapply stop_flags; [|exact Hstop].
    unfold in_group in *. rewrite Hgr. exact Hg.
Qed.

Lemma failed_start_stops_witness :
  let n := new_node "X" Fixtures.fails_late in
  exists r' s' tr',
    stop 0 [] (Svc (set_started true
                      (set_ready_event true
                         (set_ready_event false (set_stopped_event false n))))
                   []) None = (r', s', tr')
    /\ start 0 [] (Svc n []) (PyBool true) =
         (match r' with Ret _ => Raise Fixtures.E1 | Raise e' => Raise e' end,
          s',
          ([], ClearStopped) :: ([], ClearReady)
            :: [([], PreStart); ([], DoStart); ([], SetReady);
                ([], SetStarted true); ([], PostStart)] ++ tr')
    /\ (in_group 0 n = false -> started (node_of s') = false).
Proof.
  exact (@failed_start_stops 0 [] (new_node "X" Fixtures.fails_late) []
           (PyBool true) Fixtures.E1 _ _ _ eq_refl eq_refl).
Defined.

(** C1 as stated fails: [pre_start] raises [StartFailed], the [stop()]
    of the [except] clause runs [do_stop], which raises [StopFailed], and
    that is the fault the caller of [start] gets, not the original one. *)
Lemma failed_start_raises_stop_fault :
  pre_start (hk (node_of (Fixtures.leaf "X" Fixtures.fails_twice)))
    = Raise Fixtures.E1
  /\ fst (fst (start 0 [] (Fixtures.leaf "X" Fixtures.fails_twice) (PyBool true)))
     = Raise Fixtures.E2
  /\ fst (fst (start 0 [] (Fixtures.leaf "X" Fixtures.fails_twice) (PyBool true)))
     <> Raise Fixtures.E1.
Proof.
  split; [reflexivity|]. split; [reflexivity|]. cbn. discriminate.
Qed.

(** A failed [start] that runs in one of the service's own greenlets only
    spawns the deferred stop: when [post_start] raised, the service is
    still registered as started when [start] returns. *)
Lemma failed_start_from_own_greenlet :
  let '(r, s', tr) := start 7 [] Fixtures.late_owner (PyBool true) in
  r = Raise Fixtures.E1
  /\ started (node_of s') = true
  /\ In ([], SpawnStop) tr.
Proof. vm_compute. intuition. Qed.



(** The child loop of [stop] handled a final part of the child list, from
    the last child on, each child as it was before the loop; it handled
    all of the list when it returned. *)
Lemma stop_children_reached f p : forall cs i r cs' tr,
  stop_children f p i cs = (r, cs', tr) ->
  exists pre suf,
    indexed i cs = pre ++ suf
    /\ tr = flat_map (fun ic => snd (stop_child f p (fst ic) (snd ic))) (rev suf)
    /\ (r = Ret tt -> pre = []).
Proof.
  induction cs as [|c cs IH]; intros i r cs' tr; cbn [stop_children].
  - intros [= <- <- <-]. exists [], []. auto.
  - destruct (stop_children f p (S i) cs) as [[r1 rest] tr1] eqn:Hr.
    destruct (IH _ _ _ _ Hr) as (pre & suf & E & T & R).
    assert (I : indexed i (c :: cs) = (i, c) :: indexed (S i) cs) by reflexivity.
    destruct r1 as [[]|e].
    + destruct (stop_child f p i c) as [[r2 c'] tr2] eqn:Hc.
      intros [= <- <- <-]. exists [], ((i, c) :: suf).
      rewrite (R eq_refl) in E. cbn [app] in E. rewrite I, E.
      split; [reflexivity|]. split; [|auto].
      cbn [rev]. rewrite flat_map_app. cbn [flat_map fst snd].
      rewrite Hc, <- T. cbn [snd]. now rewrite app_nil_r.
    + intros [= <- <- <-]. exists ((i, c) :: pre), suf.
      rewrite I, E. split; [reflexivity|]. split; [exact T|discriminate].
Qed.

(** No child is started after a child loop of [stop] that returned, when
    the caller is in the group of no child. *)
Lemma stop_children_flags cur p : forall cs i cs' tr,
  Forall (on_services (fun s => in_group cur (node_of s) = false)) cs ->
  stop_children (fun q s => stop cur q s None) p i cs = (Ret tt, cs', tr) ->
  Forall (fun c => child_started c = false) cs'.
Proof.
  induction cs as [|c cs IH]; intros i cs' tr F; cbn [stop_children].
  - intros [= <- <-]. constructor.
  - inversion F as [|c0 cs0 Fc Fcs]; subst.
    destruct (stop_children _ p (S i) cs) as [[r rest] tr1] eqn:Hr.
    destruct r as [[]|]; [|discriminate].
    specialize (IH _ _ _ Fcs Hr).
    unfold stop_child. destruct (child_started c) eqn:Hs.
    + destruct c as [[nc csc]|b].
      * destruct (stop cur (p ++ [i]) (Svc nc csc) None) as [[r s1] tr2] eqn:H1.
        intros [= -> <- <-]. constructor; [|exact IH].
        cbn [on_services node_of] in Fc.
        eapply stop_flags; [exact Fc | exact H1].
      * cbn [server_stop]. intros [= _ <- <-]. constructor; [reflexivity|exact IH].
    + intros [= <- <-]. constructor; [exact Hs | exact IH].
Qed.

(** C6 (as amended): in a [stop] that is not deferred and whose [pre_stop]
    returns, the children are stopped after the node's [pre_stop], from
    the last child on, until the [stop] of a child raises.  The stop order
    recorded in the trace is a leading part of the reverse of the list of
    the started children: a child whose [started] flag is false is
    skipped.  When no [stop] of a child raises, the order is the whole
    reversed list (C, B, A for started children A, B, C), the node's
    [do_stop] comes right after the children, and no child is started
    afterwards, provided the caller is in the group of no child (the
    [stop] of such a child would only be deferred).  When the [stop] of a
    child raises, [do_stop] is not called. *)
Theorem stop_stops_children_in_reverse cur p n cs timeout rc cs1 trc :
  in_group cur n = false ->
  pre_stop (hk n) = Ret tt ->
  stop_children (fun q s => stop cur q s None) p 0 cs = (rc, cs1, trc) ->
  (exists r n',
     stop cur p (Svc n cs) timeout =
       (r, Svc n' cs1,
        (p, SetStarted false) :: (p, PreStop) :: trc
        ++ (match rc with Ret _ => [(p, DoStop)] | Raise _ => [] end)
        ++ snd (cleanup p timeout (set_started false n)) ++ [(p, PostStop)]))
  /\ stop_order p (snd (stop cur p (Svc n cs) timeout)) = stop_order p trc
  /\ (exists l, rev (started_indices cs) = stop_order p trc ++ l)
  /\ (rc = Ret tt ->
      stop_order p trc = rev (started_indices cs)
      /\ (Forall (on_services (fun s => in_group cur (node_of s) = false)) cs ->
          Forall (fun c => child_started c = false)
                 (children (snd (fst (stop cur p (Svc n cs) timeout)))))).
Proof.
  intros Hg Hpre Hc.
  destruct (stop_children_reached _ _ _ _ Hc) as (pre & suf & E & T & R).
  assert (O : stop_order p trc
              = rev (map fst (filter (fun ic => child_started (snd ic)) suf)))
    by (rewrite T; apply stop_order_rev).
  assert (S0 : started_indices cs
               = map fst (filter (fun ic => child_started (snd ic)) pre)
                 ++ map fst (filter (fun ic => child_started (snd ic)) suf)).
  { unfold started_indices. now rewrite E, filter_app, map_app. }
  assert (X : exists r n',
     stop cur p (Svc n cs) timeout =
       (r, Svc n' cs1,
        (p, SetStarted false) :: (p, PreStop) :: trc
        ++ (match rc with Ret _ => [(p, DoStop)] | Raise _ => [] end)
        ++ snd (cleanup p timeout (set_started false n)) ++ [(p, PostStop)])).
  { rewrite stop_eq, Hg. cbn zeta. unfold stop_body.
    replace (hk (set_started false n)) with (hk n) by reflexivity.
    rewrite Hpre, Hc.
    destruct (cleanup p timeout (set_started false n)) as [n' tc]. cbn [snd].
    destruct rc as [[]|e].
    - exists (match post_stop (hk n') with
              | Raise e => Raise e
              | Ret _ => do_stop (hk n)
              end), n'.
      cbn [app]. rewrite <- (app_assoc trc). cbn [app].
      destruct (post_stop (hk n')); reflexivity.
    - exists (match post_stop (hk n') with
              | Raise e' => Raise e'
              | Ret _ => Raise e
              end), n'.
      cbn [app]. destruct (post_stop (hk n')); reflexivity. }
  split; [exact X|].
  destruct X as (r & n' & X). rewrite X. cbn [snd fst children].
  split; [|split; [|intros Hrc; split]].
  - rewrite !stop_order_cons_here, !stop_order_app.
    assert (Z2 : stop_order p (snd (cleanup p timeout (set_started false n)))
                 = []).
    { unfold cleanup. destruct (greenlets _); cbn [snd app];
        rewrite !stop_order_cons_here; reflexivity. }
    rewrite Z2.
    destruct rc; rewrite !stop_order_cons_here;
      change (stop_order p []) with (@nil nat); now rewrite ?app_nil_r.
  - exists (rev (map fst (filter (fun ic => child_started (snd ic)) pre))).
    now rewrite O, S0, rev_app_distr.
  - rewrite O, S0, (R Hrc). reflexivity.
  - intros F. subst rc. exact (stop_children_flags _ _ _ F Hc).
Qed.

(** Children A, B, C, all started: the recorded stop order is C, B, A,
    between the root's [pre_stop] and its [do_stop]. *)
Lemma stop_order_abc :
  stop_order [] (snd (stop 0 [] Fixtures.abc_running None)) = [2; 1; 0]%nat
  /\ filter (fun ev => match snd ev with
                       | PreStop | DoStop => true
                       | _ => false
                       end)
            (snd (stop 0 [] Fixtures.abc_running None))
     = [([], PreStop);
        ([2], PreStop); ([2], DoStop);
        ([1], PreStop); ([1], DoStop);
        ([0], PreStop); ([0], DoStop);
        ([], DoStop)]%nat.
Proof. split; reflexivity. Qed.

Lemma stop_stops_children_in_reverse_witness :
  stop_order [] (snd (stop 0 [] Fixtures.abc None)) = [2; 0]%nat
  /\ Forall (fun c => child_started c = false)
            (children (snd (fst (stop 0 [] Fixtures.abc None))))
  /\ stop_order [] (snd (stop 0 [] Fixtures.abc_c_fails None)) = [2]%nat.
Proof.
  destruct (@stop_stops_children_in_reverse 0 []
              (node_of Fixtures.abc) (children Fixtures.abc) None
              _ _ _ eq_refl eq_refl eq_refl) as (_ & H1 & _ & H2).
  destruct (H2 eq_refl) as (_ & H3).
  destruct (@stop_stops_children_in_reverse 0 []
              (node_of Fixtures.abc_c_fails) (children Fixtures.abc_c_fails)
              None _ _ _ eq_refl eq_refl eq_refl) as (_ & H4 & _).
  split; [exact H1|]. split; [|exact H4].
  apply H3. repeat constructor.
Defined.

(** C6 as stated fails: children A, B, C are all started and the [do_stop]
    of C raises.  The [stop] of the parent calls [stop] on C only: the
    recorded stop order is C alone, not C, B, A; the parent's [do_stop] is
    not called, the fault of C is raised, and A and B are still started
    afterwards. *)
Lemma child_fault_ends_stop_order :
  started_indices (children Fixtures.abc_c_fails) = [0; 1; 2]%nat
  /\ stop_order [] (snd (stop 0 [] Fixtures.abc_c_fails None)) = [2]%nat
  /\ fst (fst (stop 0 [] Fixtures.abc_c_fails None)) = Raise Fixtures.E2
  /\ map child_started
         (children (snd (fst (stop 0 [] Fixtures.abc_c_fails None))))
     = [true; true; false]
  /\ ~ In ([], DoStop) (snd (stop 0 [] Fixtures.abc_c_fails None)).
Proof.
  repeat split. intros H. vm_compute in H. intuition discriminate.
Qed.

Lemma gate_ok_children s :
  gate_ok s = true -> all_services gate_ok (children s) = true.
Proof. destruct s. cbn. intros H. now apply andb_true_iff in H. Qed.

Lemma run_op_gate cur s o :
  outside cur s = true -> gate_ok s = true -> op_ok s o = true ->
  gate_ok (run_op cur s o) = true.
Proof.
  intros Ho Hok Hop. destruct o as [b|t| |t cb w]; cbn [run_op].
  - now apply start_gate.
  - apply stop_gate; [auto | now apply gate_ok_children].
  - destruct s as [n cs]. cbn in Hop. cbn [set_ready fst gate_ok] in *.
    apply andb_true_iff in Hok as [_ Hcs].
    change (started (set_ready_event true n)) with (started n).
    now rewrite Hop, Hcs.
  - assert (O1 : gate_ok (snd (fst (ensure_started cur [] s cb))) = true).
    { destruct (ensure_started_state cur [] s cb) as [-> | ->];
        [exact Hok | now apply start_gate]. }
    destruct (serve_forever_state cur [] s t cb w) as [-> | ->]; [exact O1|].
    destruct (wait_stopped_state cur [] (snd (fst (ensure_started cur [] s cb))) t w)
      as [-> | (g' & t' & ->)]; [exact O1|].
    apply stop_gate; [auto | now apply gate_ok_children].
Qed.

(** C9 (as amended): start from a tree in which the ready gate is closed
    wherever [started] is false, and apply any sequence of [start], [stop],
    [serve_forever] and [set_ready] calls to the root, from a greenlet
    outside the tree's groups, with [set_ready] called only while the
    service is started.  Then in every state at an operation boundary the
    gate is closed wherever [started] is false, in the root and in every
    descendant. *)
Theorem gate_closed_at_boundaries cur : forall ops s,
  outside cur s = true ->
  gate_ok s = true ->
  ops_ok cur s ops = true ->
  Forall (fun s' => gate_ok s' = true
                    /\ (started (node_of s') = false -> ready s' = false))
         (boundaries cur s ops).
Proof.
  assert (R : forall s, gate_ok s = true ->
                        started (node_of s) = false -> ready s = false).
  { intros [n cs]. unfold ready. cbn. intros H Hs. rewrite Hs in H.
    destruct (ready_event n); [discriminate H | reflexivity]. }
  induction ops as [|o ops IH]; intros s Ho Hok Hops; cbn [boundaries].
  - constructor; [auto | constructor].
  - cbn [ops_ok] in Hops. apply andb_true_iff in Hops as [Hop Hops].
    constructor; [auto|].
    apply IH; [now apply run_op_outside | now apply run_op_gate | exact Hops].
Qed.

Lemma gate_closed_at_boundaries_witness :
  Forall (fun s' => gate_ok s' = true
                    /\ (started (node_of s') = false -> ready s' = false))
         (boundaries 0 Fixtures.fresh_tree
            [OpStart (PyBool true); OpSetReady; OpStop None;
             OpServeForever None None (Released 1 (Some 3%Z)); OpStop None]).
Proof.
  exact (@gate_closed_at_boundaries 0
           [OpStart (PyBool true); OpSetReady; OpStop None;
            OpServeForever None None (Released 1 (Some 3%Z)); OpStop None]
           Fixtures.fresh_tree eq_refl eq_refl eq_refl).
Defined.

(** C9 as stated fails: [set_ready] only sets the event, so on a service
    that was never started the gate is open while [started] is false. *)
Lemma set_ready_opens_gate_of_stopped_service :
  let s' := run_op 0 (Fixtures.leaf "S" default_hooks) OpSetReady in
  In s' (boundaries 0 (Fixtures.leaf "S" default_hooks) [OpSetReady])
  /\ started (node_of s') = false
  /\ ready s' = true.
Proof. cbn. auto. Qed.

End LifecycleFacts.

(** * Properties of the error interceptor *)

Module InterceptorFacts.
Import Interceptor Lifecycle Observations HandlerObservations.

(** *** The order of a dict *)

Section Order.
Variable before : list kind -> kind -> kind -> bool.

Lemma place_perm n x : forall t, Permutation (place before n x t) (x :: t).
Proof.
  induction t as [|y t IH]; cbn [place]; [reflexivity|].
  destruct (_ || _); [reflexivity|].
  rewrite IH. apply perm_swap.
Qed.

Lemma rehash_perm t : Permutation (rehash before t) t.
Proof.
  unfold rehash. generalize (keys t) as n. intros n.
  induction t as [|x t IH]; cbn [fold_right]; [reflexivity|].
  rewrite place_perm. now constructor.
Qed.

Lemma place_of_key k n x : forall t,
  of_key k (place before n x t) = of_key k (x :: t).
Proof.
  unfold of_key. destruct x as [kx vx].
  induction t as [|[ky vy] t IH]; cbn [place fst]; [reflexivity|].
  destruct (String.eqb kx ky) eqn:E; cbn [orb]; [reflexivity|].
  destruct (before n kx ky); [reflexivity|].
  cbn [filter fst] in *. rewrite IH.
  destruct (String.eqb k kx) eqn:Ex; destruct (String.eqb k ky) eqn:Ey;
    try reflexivity.
  apply String.eqb_eq in Ex. apply String.eqb_eq in Ey.
  apply String.eqb_neq in E. congruence.
Qed.

Lemma rehash_of_key k t : of_key k (rehash before t) = of_key k t.
Proof.
  unfold rehash. generalize (keys t) as n. intros n.
  induction t as [|x t IH]; cbn [fold_right]; [reflexivity|].
  rewrite place_of_key. unfold of_key in *. cbn [filter]. now rewrite IH.
Qed.

Lemma lookup_of_key k t :
  lookup k t = match of_key k t with [] => None | kv :: _ => Some (snd kv) end.
Proof.
  unfold of_key. induction t as [|[k' v] t IH]; cbn; [reflexivity|].
  destruct (String.eqb k k'); [reflexivity | exact IH].
Qed.

Lemma lookup_rehash k t : lookup k (rehash before t) = lookup k t.
Proof. now rewrite !lookup_of_key, rehash_of_key. Qed.

Lemma lookup_app_new k v t :
  existsb (String.eqb k) (keys t) = false -> lookup k (t ++ [(k, v)]) = Some v.
Proof.
  induction t as [|[k' v'] t IH]; cbn; [now rewrite String.eqb_refl|].
  destruct (String.eqb k k'); cbn; [discriminate | exact IH].
Qed.

Lemma lookup_app_other k k' v t :
  k' <> k -> lookup k' (t ++ [(k, v)]) = lookup k' t.
Proof.
  intros N. induction t as [|[k0 v0] t IH]; cbn.
  - apply String.eqb_neq in N. now rewrite N.
  - destruct (String.eqb k' k0); [reflexivity | exact IH].
Qed.

Lemma replace_keys k v t : keys (replace k v t) = keys t.
Proof.
  induction t as [|[k' v'] t IH]; cbn; [reflexivity|].
  destruct (String.eqb k k') eqn:E; cbn; [|unfold keys in *; now rewrite IH].
  apply String.eqb_eq in E. now subst.
Qed.

Lemma lookup_replace_same k v t :
  existsb (String.eqb k) (keys t) = true -> lookup k (replace k v t) = Some v.
Proof.
  induction t as [|[k' v'] t IH]; cbn; [discriminate|].
  destruct (String.eqb k k') eqn:E; cbn.
  - now rewrite String.eqb_refl.
  - now rewrite E.
Qed.

Lemma lookup_replace_other k k' v t :
  k' <> k -> lookup k' (replace k v t) = lookup k' t.
Proof.
  intros N. induction t as [|[k0 v0] t IH]; cbn; [reflexivity|].
  destruct (String.eqb k k0) eqn:E; cbn; [|now rewrite IH].
  apply String.eqb_eq in E. subst k0.
  apply String.eqb_neq in N. now rewrite N.
Qed.

(** [d[k] = v] and the keys of the dict. *)
Lemma setitem_keys k v t :
  Permutation (keys (setitem before k v t))
              (if existsb (String.eqb k) (keys t) then keys t
               else keys t ++ [k]).
Proof.
  unfold setitem. destruct (existsb _ _).
  - now rewrite replace_keys.
  - unfold keys. rewrite (Permutation_map fst (rehash_perm _)).
    now rewrite map_app.
Qed.

Lemma setitem_NoDup k v t :
  NoDup (keys t) -> NoDup (keys (setitem before k v t)).
Proof.
  intros N. eapply Permutation_NoDup; [symmetry; apply setitem_keys|].
  destruct (existsb _ _) eqn:E; [exact N|].
  apply NoDup_app; [exact N | repeat constructor; intros [] |].
  intros x Hx [Hk|[]]. subst x.
  assert (existsb (String.eqb k) (keys t) = true); [|congruence].
  apply existsb_exists. exists k. split; [exact Hx | apply String.eqb_refl].
Qed.

Lemma setitem_keys_incl k v t x :
  In x (keys t) -> In x (keys (setitem before k v t)).
Proof.
  intros H. eapply Permutation_in; [symmetry; apply setitem_keys|].
  destruct (existsb _ _); [exact H | apply in_or_app; now left].
Qed.

Lemma setitem_new_length k v t :
  existsb (String.eqb k) (keys t) = false ->
  List.length (setitem before k v t) = S (List.length t).
Proof.
  intros H. unfold setitem. rewrite H.
  rewrite (Permutation_length (rehash_perm _)), length_app. cbn. lia.
Qed.

Lemma lookup_setitem_same k v t : lookup k (setitem before k v t) = Some v.
Proof.
  unfold setitem. destruct (existsb _ _) eqn:E.
  - now apply lookup_replace_same.
  - rewrite lookup_rehash. now apply lookup_app_new.
Qed.

Lemma lookup_setitem_other k k' v t :
  k' <> k -> lookup k' (setitem before k v t) = lookup k' t.
Proof.
  intros N. unfold setitem. destruct (existsb _ _).
  - now apply lookup_replace_other.
  - rewrite lookup_rehash. now apply lookup_app_other.
Qed.

Lemma run_regs_NoDup cur rs : forall t,
  NoDup (keys t) -> NoDup (keys (run_regs before cur t rs)).
Proof.
  unfold run_regs. induction rs as [|kh rs IH]; intros t N; cbn; [exact N|].
  apply IH. now apply setitem_NoDup.
Qed.

Lemma run_regs_keys_incl cur rs x : forall t,
  In x (keys t) -> In x (keys (run_regs before cur t rs)).
Proof.
  unfold run_regs. induction rs as [|kh rs IH]; intros t H; cbn; [exact H|].
  apply IH. now apply setitem_keys_incl.
Qed.

(** A fault the [except] clause catches has a matching entry in any later
    state of the dict. *)
Lemma matching_nonempty cur rs e t :
  except_matches (keys t) e = true ->
  matching e (run_regs before cur t rs) <> [].
Proof.
  unfold except_matches. rewrite existsb_exists. intros (k & Hk & M).
  apply (run_regs_keys_incl cur rs) in Hk.
  unfold keys in Hk. apply in_map_iff in Hk as ([k' v] & <- & Hin).
  intros E. assert (In (k', v) (matching e (run_regs before cur t rs))).
  { apply filter_In. auto. }
  rewrite E in H. exact H.
Qed.

(** [wrapped_f], one call unfolded. *)
Lemma wrapped_f_eq fuel cur t f :
  wrapped_f before (S fuel) cur t f =
  let t1 := run_regs before cur t (regs f) in
  match out f with
  | Ret v => (Some (Ret v), t1, [fid f])
  | Raise exception =>
      if except_matches (keys t) exception then
        dispatch (wrapped_f before fuel cur) exception (List.length t1)
                 (keys t1) t1 [fid f]
      else (Some (Raise exception), t1, [fid f])
  end.
Proof. reflexivity. Qed.

(** Calling a wrapped plain handler: it runs, returns, and leaves the dict
    as it is. *)
Lemma wrapped_plain fuel cur t h :
  plain h = true ->
  exists v, wrapped_f before (S fuel) cur t h = (Some (Ret v), t, [fid h]).
Proof.
  unfold plain. destruct h as [i r o]. cbn.
  destruct r; [|discriminate]. destruct o as [v|]; [|discriminate].
  intros _. exists v. reflexivity.
Qed.
End Order.

Lemma lookup_in k v t : NoDup (keys t) -> In (k, v) t -> lookup k t = Some v.
Proof.
  induction t as [|[k' v'] t IH]; [intros _ []|].
  cbn. intros N [H|H].
  - injection H as -> ->. now rewrite String.eqb_refl.
  - inversion N as [|x l Hn Ht]; subst.
    destruct (String.eqb k k') eqn:E; [|auto].
    apply String.eqb_eq in E. subst. exfalso. apply Hn.
    change k' with (fst (k', v)). now apply in_map.
Qed.

(** *** The loop over the dict *)

(** Whatever the handlers do, a normal return of the loop is the fault. *)
Lemma dispatch_value call e size : forall ks t log v t' log',
  dispatch call e size ks t log = (Some (Ret v), t', log') -> v = PyExc e.
Proof.
  induction ks as [|k ks IH]; intros t log v t' log'; cbn [dispatch];
    destruct (negb _); try discriminate.
  - now intros [= <- _ _].
  - destruct (isinstance e k); [|apply IH].
    destruct (lookup k t) as [[h g]|]; [|discriminate].
    destruct (call t h) as [[r t1] log1].
    destruct r as [[w|]|]; try discriminate. apply IH.
Qed.

Section Loop.
Variable call : table -> func -> outcome.
Variables (e : exn) (t : table).
Hypothesis Hnodup : NoDup (keys t).

(** The loop goes through entries whose matching handlers return and
    leave the dict as it was, calling each of these handlers once. *)
Lemma dispatch_prefix ks : forall pre log,
  incl pre t ->
  Forall (fun kv => returns_unchanged call t (fst (snd kv))) (matching e pre) ->
  dispatch call e (List.length t) (keys pre ++ ks) t log =
  dispatch call e (List.length t) ks t (log ++ calls call t (matching e pre)).
Proof.
  induction pre as [|[k [h g]] pre IH]; intros log Hin F.
  - cbn. now rewrite app_nil_r.
  - assert (Hk : In (k, (h, g)) t) by (apply Hin; now left).
    assert (Hl : incl pre t) by (intros x Hx; apply Hin; now right).
    cbn [keys map fst app dispatch]. rewrite Nat.eqb_refl. cbn [negb].
    unfold matching in *. cbn [filter fst] in *.
    destruct (isinstance e k) eqn:M.
    + rewrite (@lookup_in k (h, g) t Hnodup Hk).
      inversion F as [|x l [v Hv] F']; subst. cbn [fst snd] in Hv.
      destruct (call t h) as [[r t'] logh] eqn:Hc. cbn [fst] in Hv.
      injection Hv as -> ->.
      fold (keys pre). rewrite (IH _ Hl F').
      unfold calls. cbn [flat_map fst snd]. rewrite Hc. cbn [snd].
      now rewrite app_assoc.
    + fold (keys pre). now apply IH.
Qed.

(** When all the matching handlers do so, the loop ends with the fault
    as value. *)
Lemma dispatch_all log :
  Forall (fun kv => returns_unchanged call t (fst (snd kv))) (matching e t) ->
  dispatch call e (List.length t) (keys t) t log =
  (Some (Ret (PyExc e)), t, log ++ calls call t (matching e t)).
Proof.
  intros F. rewrite <- (app_nil_r (keys t)).
  rewrite (dispatch_prefix [] log (incl_refl _) F).
  cbn [dispatch]. now rewrite Nat.eqb_refl.
Qed.

(** The call of a matching handler that does not return ends the loop. *)
Lemma dispatch_stops pre k h g post log r t' logh :
  t = pre ++ (k, (h, g)) :: post ->
  Forall (fun kv => returns_unchanged call t (fst (snd kv))) (matching e pre) ->
  isinstance e k = true ->
  call t h = (r, t', logh) ->
  (forall v, r <> Some (Ret v)) ->
  dispatch call e (List.length t) (keys t) t log =
  (r, t', log ++ calls call t (matching e pre) ++ logh).
Proof.
  intros Ht F Hk Hc Hr.
  assert (K : keys t = keys pre ++ k :: keys post)
    by (rewrite Ht; unfold keys; now rewrite map_app).
  assert (Hin : incl pre t)
    by (rewrite Ht; intros x Hx; apply in_or_app; now left).
  assert (L : lookup k t = Some (h, g)).
  { apply lookup_in; [exact Hnodup|]. rewrite Ht. apply in_or_app.
    right. now left. }
  rewrite K, (dispatch_prefix (k :: keys post) log Hin F).
  cbn [dispatch]. rewrite Nat.eqb_refl, Hk, L, Hc. cbn [negb].
  rewrite <- app_assoc.
  destruct r as [[v|e']|]; [now destruct (Hr v) | reflexivity | reflexivity].
Qed.
End Loop.

Lemma plain_returns_unchanged before fuel cur t l :
  Forall (fun kv => plain (fst (snd kv)) = true) l ->
  Forall (fun kv => returns_unchanged (wrapped_f before (S fuel) cur) t
                                      (fst (snd kv))) l
  /\ calls (wrapped_f before (S fuel) cur) t l = handler_ids l.
Proof.
  induction 1 as [|[k [h g]] l Hp _ [IH1 IH2]]; [split; [constructor|reflexivity]|].
  cbn [fst snd] in Hp.
  destruct (wrapped_plain before fuel cur t h Hp) as [v Hv].
  split.
  - constructor; [|exact IH1]. exists v. cbn [fst snd]. now rewrite Hv.
  - unfold calls in *. cbn [flat_map handler_ids map fst snd].
    rewrite Hv, IH2. reflexivity.
Qed.

(** Keys none of which matches add no call. *)
Lemma dispatch_nomatch call e size : forall ks t log,
  (forall k, In k ks -> isinstance e k = false) ->
  snd (dispatch call e size ks t log) = log.
Proof.
  induction ks as [|k ks IH]; intros t log H; cbn [dispatch];
    destruct (negb _); try reflexivity.
  rewrite (H k (or_introl eq_refl)). apply IH.
  intros k' Hk'. apply H. now right.
Qed.

Lemma filter_singleton (A : Type) (p : A -> bool) x : forall l,
  filter p l = [x] ->
  exists pre post, l = pre ++ x :: post
                   /\ filter p pre = [] /\ filter p post = [].
Proof.
  induction l as [|y l IH]; cbn; [discriminate|].
  destruct (p y) eqn:E.
  - intros [= -> H]. exists [], l. cbn. auto.
  - intros H. destruct (IH H) as (pre & post & -> & H1 & H2).
    exists (y :: pre), post. cbn. rewrite E. auto.
Qed.

Lemma matching_none_keys e t :
  matching e t = [] -> forall k, In k (keys t) -> isinstance e k = false.
Proof.
  unfold matching, keys. intros H k Hk.
  apply in_map_iff in Hk as ([k' v] & <- & Hin). cbn.
  destruct (isinstance e k') eqn:E; [|reflexivity].
  assert (In (k', v) (filter (fun kv => isinstance e (fst kv)) t))
    by (apply filter_In; auto).
  rewrite H in H0. destruct H0.
Qed.

(** The keys of the dict stay distinct through the loop and through a call
    of the wrapped callable. *)
Lemma dispatch_NoDup call e size :
  (forall t f, NoDup (keys t) -> NoDup (keys (snd (fst (call t f))))) ->
  forall ks t log,
    NoDup (keys t) -> NoDup (keys (snd (fst (dispatch call e size ks t log)))).
Proof.
  intros C. induction ks as [|k ks IH]; intros t log N; cbn [dispatch];
    destruct (negb _); try exact N.
  destruct (isinstance e k); [|now apply IH].
  destruct (lookup k t) as [[h g]|]; [|exact N].
  pose proof (C t h N) as N1.
  destruct (call t h) as [[r t1] log1]. cbn [fst snd] in N1.
  destruct r as [[w|e1]|]; try exact N1. now apply IH.
Qed.

Lemma wrapped_f_NoDup before cur : forall fuel t f,
  NoDup (keys t) -> NoDup (keys (snd (fst (wrapped_f before fuel cur t f)))).
Proof.
  induction fuel as [|fuel IH]; intros t f N; [exact N|].
  rewrite wrapped_f_eq. cbn zeta.
  pose proof (@run_regs_NoDup before cur (regs f) t N) as N1.
  destruct (out f) as [v|e]; [exact N1|].
  destruct (except_matches (keys t) e); [|exact N1].
  apply dispatch_NoDup; [exact IH | exact N1].
Qed.

(** The place a new key gets depends on the order of the dict: last in
    the order of insertion, first in another. *)
Lemma new_key_place :
  keys (setitem insertion_order "StartFailed" (Fixtures.h2, 0%nat)
                [("Exception", (Fixtures.h1, 0%nat))])
  = ["Exception"; "StartFailed"]
  /\ keys (setitem (fun _ _ _ => false) "StartFailed" (Fixtures.h2, 0%nat)
                   [("Exception", (Fixtures.h1, 0%nat))])
     = ["StartFailed"; "Exception"].
Proof. split; reflexivity. Qed.

(** With one matching entry there is one handler call, whatever it does. *)
Lemma dispatch_single call e t kv log :
  NoDup (keys t) ->
  matching e t = [kv] ->
  snd (dispatch call e (List.length t) (keys t) t log)
  = log ++ snd (call t (fst (snd kv))).
Proof.
  intros N M. destruct kv as [k [h g]]. cbn [fst snd].
  assert (Hk : isinstance e k = true).
  { assert (In (k, (h, g)) (matching e t)) by (rewrite M; now left).
    apply filter_In in H. apply H. }
  destruct (filter_singleton _ _ M) as (pre & post & Ht & M1 & M2).
  fold (matching e pre) in M1. fold (matching e post) in M2.
  assert (K : keys t = keys pre ++ k :: keys post)
    by (rewrite Ht; unfold keys; now rewrite map_app).
  assert (Hin : incl pre t)
    by (rewrite Ht; intros x Hx; apply in_or_app; now left).
  assert (L : lookup k t = Some (h, g)).
  { apply lookup_in; [exact N|]. rewrite Ht. apply in_or_app.
    right. now left. }
  rewrite K. rewrite (@dispatch_prefix call e t N (k :: keys post) pre log Hin);
    [|rewrite M1; constructor].
  rewrite M1. cbn [calls flat_map]. rewrite app_nil_r.
  cbn [dispatch]. rewrite Nat.eqb_refl, Hk, L. cbn [negb].
  destruct (call t h) as [[r t'] logh]. cbn [snd].
  destruct r as [[v|e']|]; try reflexivity.
  apply dispatch_nomatch. now apply matching_none_keys.
Qed.

(** *** The wrapped callable *)

(** C3 (as amended): calling the wrapped callable runs [f] and returns what
    it returns.  When [f] raises a fault that is an instance of no class
    registered in the service's handler dict when the wrapped callable is
    entered, the fault is raised to the caller.  When it is an instance of
    such a class, the loop over the dict runs and calls the handlers
    through [_wrap_errors] again (the call [wrapped_f before fuel cur] that
    [dispatch] is given); whenever the wrapped callable then returns, its
    value is the original fault; it does return it when every call of a
    matching handler returns and leaves the dict as it was, and at least
    one handler is then called; the first call of a matching handler that
    does not return ends the wrapped callable with the outcome of that
    call, so a fault of a handler that is not intercepted is raised in
    place of the original fault.  The keys of the dict are distinct. *)
Theorem wrap_errors_intercepts before fuel cur t f :
  let t1 := run_regs before cur t (regs f) in
  let call := wrapped_f before fuel cur in
  (forall v, out f = Ret v ->
     wrapped_f before (S fuel) cur t f = (Some (Ret v), t1, [fid f]))
  /\ (forall e, out f = Raise e -> except_matches (keys t) e = false ->
       wrapped_f before (S fuel) cur t f = (Some (Raise e), t1, [fid f]))
  /\ (forall e, out f = Raise e -> except_matches (keys t) e = true ->
       (forall v t' log,
          wrapped_f before (S fuel) cur t f = (Some (Ret v), t', log) ->
          v = PyExc e)
       /\ (NoDup (keys t) ->
           Forall (fun kv => returns_unchanged call t1 (fst (snd kv)))
                  (matching e t1) ->
           wrapped_f before (S fuel) cur t f =
             (Some (Ret (PyExc e)), t1, fid f :: calls call t1 (matching e t1))
           /\ matching e t1 <> [])
       /\ (NoDup (keys t) ->
           forall pre k h g post r t' logh,
             t1 = pre ++ (k, (h, g)) :: post ->
             Forall (fun kv => returns_unchanged call t1 (fst (snd kv)))
                    (matching e pre) ->
             isinstance e k = true ->
             call t1 h = (r, t', logh) ->
             (forall v, r <> Some (Ret v)) ->
             wrapped_f before (S fuel) cur t f =
               (r, t', fid f :: calls call t1 (matching e pre) ++ logh))).
Proof.
  intros t1 call. split; [|split].
  - intros v Ho. rewrite wrapped_f_eq. cbn zeta. now rewrite Ho.
  - intros e Ho Hm. rewrite wrapped_f_eq. cbn zeta. now rewrite Ho, Hm.
  - intros e Ho Hm.
    assert (E : wrapped_f before (S fuel) cur t f =
                dispatch call e (List.length t1) (keys t1) t1 [fid f])
      by (rewrite wrapped_f_eq; cbn zeta; now rewrite Ho, Hm).
    split; [|split].
    + intros v t' log. rewrite E. apply dispatch_value.
    + intros N F. split.
      * rewrite E.
        apply (@dispatch_all call e t1 (@run_regs_NoDup before cur (regs f) t N)
                 [fid f] F).
      * apply matching_nonempty. exact Hm.
    + intros N pre k h g post r t' logh Ht F Hk Hc Hr. rewrite E.
      apply (@dispatch_stops call e t1 (@run_regs_NoDup before cur (regs f) t N)
               pre k h g post [fid f] r t' logh Ht F Hk Hc Hr).
Qed.

Lemma wrap_errors_intercepts_witness :
  wrapped_f insertion_order 3 0 Fixtures.chained Fixtures.raises_E1
  = (Some (Ret (PyExc Fixtures.E1)), Fixtures.chained, [0; 3; 1]%nat)
  /\ wrapped_f insertion_order 2 0 [("StartFailed", (Fixtures.h3, 0%nat))]
       Fixtures.raises_E1
     = (Some (Raise Fixtures.E2), [("StartFailed", (Fixtures.h3, 0%nat))],
        [0; 3]%nat).
Proof.
  split.
  - destruct (@wrap_errors_intercepts insertion_order 2 0 Fixtures.chained
                Fixtures.raises_E1) as (_ & _ & H).
    destruct (H Fixtures.E1 eq_refl eq_refl) as (_ & H' & _).
    refine (proj1 (H' _ _)).
    + repeat constructor; cbn; intuition discriminate.
    + repeat constructor. exists (PyExc Fixtures.E2). reflexivity.
  - destruct (@wrap_errors_intercepts insertion_order 1 0
                [("StartFailed", (Fixtures.h3, 0%nat))]
                Fixtures.raises_E1) as (_ & _ & H).
    destruct (H Fixtures.E1 eq_refl eq_refl) as (_ & _ & H').
    refine (H' _ [] "StartFailed" Fixtures.h3 0%nat []
               (Some (Raise Fixtures.E2))
               [("StartFailed", (Fixtures.h3, 0%nat))] [3%nat]
               eq_refl _ eq_refl eq_refl _).
    + repeat constructor; cbn; intuition.
    + constructor.
    + intros v. discriminate.
Defined.

(** C3 as stated fails, twice over.  A handler registered for
    [StartFailed] raises [StopFailed], which no handler is registered for:
    the handler is called, and the wrapped callable raises [StopFailed];
    the original fault is not returned.  And a callable that registers a
    handler for [StartFailed] and then raises [StartFailed] has its fault
    raised to the caller, although the class is in the dict when the fault
    is raised: no handler is called. *)
Lemma original_fault_is_not_returned :
  (isinstance Fixtures.E1 "StartFailed" = true
   /\ wrapped_f insertion_order 2 0 [("StartFailed", (Fixtures.h3, 0%nat))]
        Fixtures.raises_E1
      = (Some (Raise Fixtures.E2), [("StartFailed", (Fixtures.h3, 0%nat))],
         [Interceptor.fid Fixtures.raises_E1; Interceptor.fid Fixtures.h3])
   /\ Raise Fixtures.E2 <> Ret (PyExc Fixtures.E1))
  /\ (let '(r, t', log) :=
        wrapped_f insertion_order 3 0 [] Fixtures.registers_then_raises in
      r = Some (Raise Fixtures.E1)
      /\ lookup "StartFailed" t' = Some (Fixtures.h2, 0%nat)
      /\ log = [Interceptor.fid Fixtures.registers_then_raises]).
Proof. repeat split. discriminate. Qed.

(** A handler's own fault goes through the same interception: here the
    handler of [StartFailed] raises [StopFailed], the handler registered for
    [StopFailed] is called, and the original fault is still the value. *)
Lemma handler_fault_is_intercepted :
  wrapped_f insertion_order 3 0 Fixtures.chained Fixtures.raises_E1
  = (Some (Ret (PyExc Fixtures.E1)), Fixtures.chained, [0; 3; 1]%nat).
Proof. reflexivity. Qed.

(** C4 (as amended): matching is [isinstance] of the raised fault against
    each registered class.  As long as each call of a matching handler
    returns and leaves the dict as it was, every registered class that
    matches has its handler called, once each, in the dict's order (with
    handlers that only return, the calls are exactly the matching
    handlers); a call that does not return ends the loop, and the matching
    classes after it have no handler called.  A fault that matches exactly
    one registered class has exactly one handler call.  The keys of the
    dict are distinct. *)
Theorem every_matching_handler_called_once before fuel cur t f e :
  out f = Raise e ->
  except_matches (keys t) e = true ->
  NoDup (keys t) ->
  let t1 := run_regs before cur t (regs f) in
  let call := wrapped_f before fuel cur in
  (Forall (fun kv => returns_unchanged call t1 (fst (snd kv))) (matching e t1) ->
     snd (wrapped_f before (S fuel) cur t f)
     = fid f :: calls call t1 (matching e t1))
  /\ (Forall (fun kv => plain (fst (snd kv)) = true) (matching e t1) ->
      snd (wrapped_f before (S (S fuel)) cur t f)
      = fid f :: handler_ids (matching e t1))
  /\ (forall k v, In (k, v) (matching e t1) <->
                  In (k, v) t1 /\ isinstance e k = true)
  /\ (forall pre k h g post r t' logh,
        t1 = pre ++ (k, (h, g)) :: post ->
        Forall (fun kv => returns_unchanged call t1 (fst (snd kv)))
               (matching e pre) ->
        isinstance e k = true ->
        call t1 h = (r, t', logh) ->
        (forall v, r <> Some (Ret v)) ->
        snd (wrapped_f before (S fuel) cur t f)
        = fid f :: calls call t1 (matching e pre) ++ logh)
  /\ (forall kv, matching e t1 = [kv] ->
        snd (wrapped_f before (S fuel) cur t f)
        = fid f :: snd (call t1 (fst (snd kv)))).
Proof.
  intros Ho Hm N t1 call.
  pose proof (@run_regs_NoDup before cur (regs f) t N) as N1. fold t1 in N1.
  assert (E : forall fuel',
            wrapped_f before (S fuel') cur t f =
            dispatch (wrapped_f before fuel' cur) e (List.length t1) (keys t1)
                     t1 [fid f])
    by (intros fuel'; rewrite wrapped_f_eq; cbn zeta; now rewrite Ho, Hm).
  split; [|split; [|split; [|split]]].
  - intros F. rewrite E. unfold call.
    now rewrite (@dispatch_all (wrapped_f before fuel cur) e t1 N1 [fid f] F).
  - intros P. rewrite E.
    destruct (plain_returns_unchanged before fuel cur t1 P) as [F C].
    rewrite (@dispatch_all (wrapped_f before (S fuel) cur) e t1 N1 [fid f] F).
    cbn [snd]. now rewrite C.
  - intros k v. unfold matching. now rewrite filter_In.
  - intros pre k h g post r t' logh Ht F Hk Hc Hr. rewrite E.
    now rewrite (@dispatch_stops (wrapped_f before fuel cur) e t1 N1
                   pre k h g post [fid f] r t' logh Ht F Hk Hc Hr).
  - intros kv M. rewrite E.
    exact (@dispatch_single (wrapped_f before fuel cur) e t1 kv [fid f] N1 M).
Qed.

Lemma every_matching_handler_called_once_witness :
  snd (wrapped_f insertion_order 2 0 Fixtures.two_kinds Fixtures.raises_E1)
  = [0; 1; 2]%nat.
Proof.
  refine (proj1 (@every_matching_handler_called_once insertion_order 1 0
                   Fixtures.two_kinds Fixtures.raises_E1 Fixtures.E1
                   eq_refl eq_refl _) _).
  - repeat constructor; cbn; intuition discriminate.
  - repeat constructor; eexists; reflexivity.
Defined.

(** C4 as stated fails: [StartFailed] is a subclass of [Exception] and
    both are registered; for one raised [StartFailed] the loop calls the
    handler of [Exception] and then the handler of [StartFailed] as well:
    two handler calls, not one, and the first match does not end the
    loop. *)
Lemma both_matching_handlers_are_called :
  isinstance Fixtures.E1 "Exception" = true
  /\ isinstance Fixtures.E1 "StartFailed" = true
  /\ snd (wrapped_f insertion_order 3 0 Fixtures.two_kinds Fixtures.raises_E1)
     = [Interceptor.fid Fixtures.raises_E1; Interceptor.fid Fixtures.h1;
        Interceptor.fid Fixtures.h2]
  /\ List.length (tl (snd (wrapped_f insertion_order 3 0 Fixtures.two_kinds
                             Fixtures.raises_E1)))
     <> 1%nat.
Proof. repeat split. cbn. discriminate. Qed.

(** C8 (as amended): the task made by [spawn] or [spawn_later] calls the
    wrapped callable on the service as it is when the task runs; the dict
    of the time of the spawn plays no part.  Whether a fault of the task is
    caught is decided by the classes registered when the wrapped callable
    is entered: a handler registered after the spawn but before the task
    starts to run intercepts the fault, and a fault that matches none of
    those classes is raised to the caller even if a matching handler was
    registered while the task ran.  For a fault that is caught, when each
    call of a matching handler returns and leaves the dict as it was, the
    handlers called are those registered under the matching classes in the
    dict at the time of the fault, and the fault is the value of the task.
    The keys of the dict are distinct. *)
Theorem task_fault_uses_handlers_at_run before fuel g f n seconds n2 e :
  out f = Raise e ->
  let t2 := error_handlers n2 in
  let t3 := run_regs before (gid g) t2 (regs f) in
  let call := wrapped_f before fuel (gid g) in
  forall task, task = snd (spawn g f n) \/ task = snd (spawn_later seconds g f n) ->
  (except_matches (keys t2) e = false ->
     run_task before (S fuel) task n2 =
       (Some (Raise e), set_error_handlers t3 n2, [fid f]))
  /\ (except_matches (keys t2) e = true ->
      NoDup (keys t2) ->
      Forall (fun kv => returns_unchanged call t3 (fst (snd kv)))
             (matching e t3) ->
      run_task before (S fuel) task n2 =
        (Some (Ret (PyExc e)), set_error_handlers t3 n2,
         fid f :: calls call t3 (matching e t3))).
Proof.
  intros Ho t2 t3 call task Ht.
  assert (Hg : gid (t_greenlet task) = gid g) by (destruct Ht; now subst).
  assert (Hf : t_func task = f) by (destruct Ht; now subst).
  unfold run_task. rewrite Hg, Hf. fold t2. split.
  - intros Hm. rewrite wrapped_f_eq. cbn zeta. rewrite Ho, Hm. reflexivity.
  - intros Hm N F. rewrite wrapped_f_eq. cbn zeta. rewrite Ho, Hm.
    fold t3. fold call.
    rewrite (@dispatch_all call e t3 (@run_regs_NoDup before (gid g) (regs f) t2 N)
               [fid f] F).
    reflexivity.
Qed.

Lemma task_fault_uses_handlers_at_run_witness :
  let n := new_node "S" default_hooks in
  let g := Greenlet 7 5 in
  let '(n1, task) := spawn g Fixtures.raises_E1 n in
  let n2 :=
    node_of (snd (catch insertion_order 0 "StartFailed" Fixtures.h2
                    (Svc n1 []))) in
  error_handlers n1 = []
  /\ run_task insertion_order 2 task n2 =
       (Some (Ret (PyExc Fixtures.E1)), n2, [0; 2]%nat).
Proof.
  split; [reflexivity|].
  refine (proj2 (@task_fault_uses_handlers_at_run insertion_order 1
                   (Greenlet 7 5)
                   Fixtures.raises_E1 (new_node "S" default_hooks) 0%Z
                   (node_of (snd (catch insertion_order 0 "StartFailed"
                      Fixtures.h2
                      (Svc (fst (spawn (Greenlet 7 5) Fixtures.raises_E1
                                       (new_node "S" default_hooks))) []))))
                   Fixtures.E1 eq_refl _ (or_introl eq_refl)) eq_refl _ _).
  - repeat constructor; cbn; intuition.
  - repeat constructor; eexists; reflexivity.
Defined.

(** C8 as stated fails: the task is spawned and starts to run while no
    handler is registered; while it runs, a handler for [StartFailed] is
    registered; then the task raises [StartFailed].  The handler is in the
    dict at the moment of the fault, yet the fault is not intercepted: it
    is raised out of the wrapped callable and no handler is called. *)
Lemma handler_registered_during_run_is_not_used :
  let n := new_node "S" default_hooks in
  let '(n1, task) := spawn (Greenlet 7 5) Fixtures.registers_then_raises n in
  let '(r, n2, log) := run_task insertion_order 3 task n1 in
  r = Some (Raise Fixtures.E1)
  /\ lookup "StartFailed" (error_handlers n2) = Some (Fixtures.h2, 7%nat)
  /\ isinstance Fixtures.E1 "StartFailed" = true
  /\ log = [Interceptor.fid Fixtures.registers_then_raises].
Proof. repeat split. Qed.

(** [catch] on a parent registers the handler on the parent and on every
    child it has at that time; a [StartFailed] raised in a task of child D
    then calls the handler once and is returned as a value. *)
Lemma catch_on_parent_covers_child :
  let '(r, p) :=
    catch insertion_order 0 "StartFailed" Fixtures.h2 Fixtures.parent_of_D in
  r = Ret tt
  /\ exists d,
       children p = [CService d]
       /\ lookup "StartFailed" (error_handlers (node_of d))
          = Some (Fixtures.h2, 0%nat)
       /\ let '(nd, task) := spawn (Greenlet 7 5) Fixtures.raises_E1 (node_of d) in
          run_task insertion_order 2 task nd
          = (Some (Ret (PyExc Fixtures.E1)), nd, [0; 2]%nat).
Proof. cbn. split; [reflexivity|]. eexists. repeat split. Qed.

End InterceptorFacts.

(** * Further properties of the lifecycle *)

Module LifecycleMore.
Import Lifecycle Observations TreeObservations Interface LifecycleFacts.

#[local] Arguments stop : simpl never.
#[local] Arguments start : simpl never.

Lemma all_children_cons P Q c cs :
  all_children P Q (c :: cs) =
  (match c with CService s => P s | CServer b => Q b end) && all_children P Q cs.
Proof. reflexivity. Qed.

Lemma closed_stopped s :
  closed s = true -> started (node_of s) = false -> all_stopped s = true.
Proof.
  destruct s as [n cs]. cbn [closed all_stopped node_of]. intros H Hs.
  rewrite Hs in *. cbn [orb negb andb] in *. now apply andb_true_iff in H.
Qed.

(** A [stop] that returns had a [try] suite that returned. *)
Lemma stop_ok_inv cur p n cs t s' tr :
  in_group cur n = false ->
  stop cur p (Svc n cs) t = (Ret tt, s', tr) ->
  exists cs' trc,
    pre_stop (hk n) = Ret tt
    /\ stop_children (fun q s => stop cur q s None) p 0 cs = (Ret tt, cs', trc)
    /\ do_stop (hk n) = Ret tt
    /\ s' = Svc (fst (cleanup p t (set_started false n))) cs'.
Proof.
  intros Hg. rewrite stop_eq, Hg. cbn zeta. unfold stop_body.
  change (hk (set_started false n)) with (hk n).
  destruct (cleanup p t (set_started false n)) as [n2 tc]. cbn [fst].
  destruct (pre_stop (hk n)) as [[]|];
    [|destruct (post_stop (hk n2)); discriminate].
  destruct (stop_children _ p 0 cs) as [[r cs'] trc].
  destruct r as [[]|]; [|destruct (post_stop (hk n2)); discriminate].
  destruct (do_stop (hk n)) as [[]|];
    [|destruct (post_stop (hk n2)); discriminate].
  destruct (post_stop (hk n2)); [|discriminate].
  intros [= <- <-]. exists cs', trc. auto.
Qed.

Section StopsChildren.
Variable cur : nat.
Let stops (s : service) : Prop :=
  forall q t tr s', outside cur s = true -> closed s = true ->
                    stop cur q s t = (Ret tt, s', tr) -> all_stopped s' = true.

Lemma stop_children_stops p : forall cs i cs' tr,
  Forall (on_services stops) cs ->
  all_services (outside cur) cs = true ->
  all_children closed (fun _ => true) cs = true ->
  stop_children (fun q s => stop cur q s None) p i cs = (Ret tt, cs', tr) ->
  all_children all_stopped (fun b => negb (bs_started b)) cs' = true.
Proof.
  induction cs as [|c cs IH]; intros i cs' tr F Ho Hc; cbn [stop_children].
  - intros [= <- <-]. reflexivity.
  - inversion F as [|c0 cs0 Fc Fcs]; subst.
    rewrite all_services_cons in Ho. rewrite all_children_cons in Hc.
    apply andb_true_iff in Ho as [Ho1 Ho2].
    apply andb_true_iff in Hc as [Hc1 Hc2].
    destruct (stop_children _ p (S i) cs) as [[r rest] tr1] eqn:Hr.
    destruct r as [[]|]; [|discriminate].
    specialize (IH _ _ _ Fcs Ho2 Hc2 Hr).
    unfold stop_child. destruct (child_started c) eqn:Hs.
    + destruct c as [s|b].
      * destruct (stop cur (p ++ [i]) s None) as [[r s1] tr2] eqn:H1.
        intros [= -> <- <-]. rewrite all_children_cons, IH.
        cbn [on_services] in Fc. rewrite (Fc _ _ _ _ Ho1 Hc1 H1). reflexivity.
      * cbn [server_stop]. intros [= _ <- <-].
        rewrite all_children_cons, IH. reflexivity.
    + intros [= <- <-]. rewrite all_children_cons, IH, andb_true_r.
      destruct c as [s|b]; cbn [child_started] in Hs.
      * now apply closed_stopped.
      * now rewrite Hs.
Qed.
End StopsChildren.

(** A [stop] that returns has stopped the whole tree. *)
Lemma stop_ok_all_stopped cur : forall s q t tr s',
  outside cur s = true -> closed s = true ->
  stop cur q s t = (Ret tt, s', tr) -> all_stopped s' = true.
Proof.
  intros s. induction s as [n cs IH] using service_induction.
  intros q t tr s' Ho Hc Hstop. cbn [outside closed] in Ho, Hc.
  apply andb_true_iff in Ho as [Hg Ho]. apply andb_true_iff in Hc as [_ Hc].
  apply negb_true_iff in Hg.
  apply stop_ok_inv in Hstop as (cs' & trc & _ & Hch & _ & ->); [|exact Hg].
  destruct (cleanup_spec q t (set_started false n)) as (n' & E & Hs & _).
  rewrite E. cbn [fst all_stopped]. rewrite Hs. cbn [started set_started negb andb].
  eapply stop_children_stops; eauto.
Qed.

(** X1: a [stop] that returns, called from outside the tree's groups on a
    tree in which nothing is started below a service that is not, leaves
    no service and no server of the tree started; the root's stopped event
    is set and its ready event is clear. *)
Theorem stop_leaves_tree_stopped cur s p t s' tr :
  outside cur s = true ->
  closed s = true ->
  stop cur p s t = (Ret tt, s', tr) ->
  all_stopped s' = true
  /\ stopped_event (node_of s') = true
  /\ ready s' = false.
Proof.
  intros Ho Hc Hstop. split; [eapply stop_ok_all_stopped; eauto|].
  destruct s as [n cs]. cbn [outside] in Ho.
  apply andb_true_iff in Ho as [Hg _]. apply negb_true_iff in Hg.
  apply stop_flags in Hstop as (_ & Hr & Hsp); [auto | exact Hg].
Qed.

Lemma stop_leaves_tree_stopped_witness :
  all_stopped (snd (fst (stop 0 [] Fixtures.abc None))) = true
  /\ stopped_event (node_of (snd (fst (stop 0 [] Fixtures.abc None)))) = true
  /\ ready (snd (fst (stop 0 [] Fixtures.abc None))) = false.
Proof.
  exact (@stop_leaves_tree_stopped 0 Fixtures.abc [] None
           (snd (fst (stop 0 [] Fixtures.abc None)))
           (snd (stop 0 [] Fixtures.abc None)) eq_refl eq_refl eq_refl).
Defined.

Section StartsChildren.
Variables (cur : nat) (bur : pyval).
Let starts (s : service) : Prop :=
  forall q s' tr, all_stopped s = true ->
                  start cur q s bur = (Ret tt, s', tr) -> all_started s' = true.

Lemma start_children_starts p : forall cs i cs' tr,
  Forall (on_services starts) cs ->
  all_children all_stopped (fun b => negb (bs_started b)) cs = true ->
  start_children (fun q s => start cur q s bur) p i cs = (Ret tt, cs', tr) ->
  all_children all_started bs_started cs' = true.
Proof.
  induction cs as [|c cs IH]; intros i cs' tr F Hs; cbn [start_children].
  - intros [= <- <-]. reflexivity.
  - inversion F as [|c0 cs0 Fc Fcs]; subst.
    rewrite all_children_cons in Hs. apply andb_true_iff in Hs as [Hs1 Hs2].
    destruct (start_child _ p i c) as [[r c1] tr1] eqn:Hc.
    destruct r as [[]|]; [|discriminate].
    destruct (start_children _ p (S i) cs) as [[r rest] tr2] eqn:Hr.
    intros [= -> <- <-]. rewrite all_children_cons.
    rewrite (IH _ _ _ Fcs Hs2 Hr), andb_true_r.
    revert Hc. unfold start_child. destruct c as [s|b].
    + assert (E : started (node_of s) = false).
      { destruct s. cbn in *. apply andb_true_iff in Hs1 as [H _].
        now apply negb_true_iff in H. }
      rewrite E. cbn [negb].
      destruct (start cur (p ++ [i]) s bur) as [[r s1] tr3] eqn:H1.
      intros [= -> <- _]. cbn [on_services] in Fc. exact (Fc _ _ _ Hs1 H1).
    + rewrite Hs1. cbn [server_start]. intros [= E <- _]. cbn. now rewrite E.
Qed.
End StartsChildren.

(** A [start] that returns on a stopped tree has started all of it. *)
Lemma start_ok_all_started cur bur : forall s p s' tr,
  all_stopped s = true ->
  start cur p s bur = (Ret tt, s', tr) ->
  all_started s' = true.
Proof.
  intros s. induction s as [n cs IH] using service_induction.
  intros p s' tr Hs H. cbn [all_stopped] in Hs.
  apply andb_true_iff in Hs as [_ Hs].
  apply start_ok_inv in H
    as (cs' & tr1 & v & n1 & tr2 & n2 & tr3 & _ & _ & Hc & _ & _ & _ & -> & _).
  cbn [all_started started set_started andb].
  eapply start_children_starts; eauto.
Qed.

(** X2: a [start] that returns, on a tree in which nothing is started,
    leaves every service and every server of the tree started, and the
    stopped event of the root clear, so that [serve_forever] will wait. *)
Theorem start_starts_whole_tree cur bur s p s' tr :
  all_stopped s = true ->
  start cur p s bur = (Ret tt, s', tr) ->
  all_started s' = true
  /\ stopped_event (node_of s') = false.
Proof.
  intros Hs H. split; [eapply start_ok_all_started; eauto|].
  destruct s as [n cs]. revert H. rewrite start_eq.
  destruct (started n); [discriminate|]. cbn zeta.
  destruct (start_body _ p bur _ cs) as [[[r n1] cs1] tr0] eqn:Hb.
  apply start_body_node in Hb as (_ & _ & Hsp & _). destruct r.
  - intros [= <- _]. exact Hsp.
  - destruct (stop cur p (Svc n1 cs1) None) as [[r' s1] tr1].
    destruct r'; discriminate.
Qed.

Lemma start_starts_whole_tree_witness :
  all_started (snd (fst (start 0 [] Fixtures.fresh_tree (PyBool true)))) = true
  /\ stopped_event
       (node_of (snd (fst (start 0 [] Fixtures.fresh_tree (PyBool true)))))
     = false.
Proof.
  exact (@start_starts_whole_tree 0 (PyBool true) Fixtures.fresh_tree []
           (snd (fst (start 0 [] Fixtures.fresh_tree (PyBool true))))
           (snd (start 0 [] Fixtures.fresh_tree (PyBool true)))
           eq_refl eq_refl).
Defined.

(** X3: after a [start] that returned, the service is ready exactly when
    its [do_start] called [set_ready] itself, or returned something other
    than [NOT_READY], or [start] waited ([block_until_ready is True]) and
    [set_ready] was called during the wait.  A started service need not be
    ready. *)
Theorem ready_after_start cur p n cs bur s' tr :
  start cur p (Svc n cs) bur = (Ret tt, s', tr) ->
  exists v,
    ds_out (do_start (hk n)) = Ret v
    /\ ready s' =
       ds_set_ready (do_start (hk n))
       || negb (py_eq v NOT_READY)
       || (py_is_True bur && ds_ready_in_wait (do_start (hk n))).
Proof.
  intros H.
  apply start_ok_inv in H
    as (cs' & tr1 & v & n1 & tr2 & n2 & tr3 & _ & _ & _ & Hd & Ha & _ & -> & _).
  exists v. revert Hd Ha. unfold call_do_start, after_do_start, ready.
  cbn [node_of hk set_ready_event set_stopped_event set_started ready_event].
  destruct (ds_set_ready (do_start (hk n)));
    intros [= Ho <- _] Ha; (split; [exact Ho|]); revert Ha;
    cbn [hk ready_event set_ready_event];
    destruct (py_eq v NOT_READY), (py_is_True bur); cbn [andb negb];
    intros [= <- _]; cbn; try reflexivity;
    destruct (ds_ready_in_wait _); reflexivity.
Qed.

Lemma ready_after_start_witness :
  exists v,
    ds_out (do_start (hk (new_node "S" Fixtures.returns_True))) = Ret v
    /\ ready (snd (fst (start 0 [] (Fixtures.leaf "S" Fixtures.returns_True)
                              (PyInt 1))))
       = ds_set_ready (do_start (hk (new_node "S" Fixtures.returns_True)))
         || negb (py_eq v NOT_READY)
         || (py_is_True (PyInt 1)
             && ds_ready_in_wait (do_start (hk (new_node "S" Fixtures.returns_True)))).
Proof.
  exact (@ready_after_start 0 [] (new_node "S" Fixtures.returns_True) []
           (PyInt 1)
           (snd (fst (start 0 [] (Fixtures.leaf "S" Fixtures.returns_True)
                            (PyInt 1))))
           (snd (start 0 [] (Fixtures.leaf "S" Fixtures.returns_True) (PyInt 1)))
           eq_refl).
Defined.

(** *** Which effects a call can have *)

Section TraceAll.
Variable A : event -> Prop.
Variable child_call : path -> service -> result unit * service * trace.
Variable cs0 : list child.
Hypothesis child_all :
  Forall (on_services (fun s => forall q, Forall A (snd (child_call q s)))) cs0.

Lemma stop_children_all p :
  (forall q, A (q, ServerStop)) ->
  forall cs i, incl cs cs0 -> Forall A (snd (stop_children child_call p i cs)).
Proof.
  intros HS. induction cs as [|c cs IH]; intros i Hin; cbn [stop_children];
    [constructor|].
  assert (Hc : In c cs0) by (apply Hin; now left).
  assert (Hcs : incl cs cs0) by (intros x Hx; apply Hin; now right).
  specialize (IH (S i) Hcs).
  destruct (stop_children child_call p (S i) cs) as [[r rest] tr].
  destruct r; cbn [snd] in *; [|exact IH].
  unfold stop_child. destruct (child_started c);
    [|cbn [snd]; now rewrite app_nil_r].
  destruct c as [s|b].
  - rewrite Forall_forall in child_all.
    pose proof (child_all _ Hc (p ++ [i])) as B. cbn [on_services] in B.
    destruct (child_call (p ++ [i]) s) as [[r' s'] tr']. cbn [snd] in *.
    apply Forall_app. auto.
  - cbn [server_stop snd]. apply Forall_app. split; [exact IH|].
    constructor; [apply HS | constructor].
Qed.

Lemma start_children_all p :
  (forall q, A (q, ServerStart)) ->
  forall cs i, incl cs cs0 -> Forall A (snd (start_children child_call p i cs)).
Proof.
  intros HS. induction cs as [|c cs IH]; intros i Hin; cbn [start_children];
    [constructor|].
  assert (Hc : In c cs0) by (apply Hin; now left).
  assert (Hcs : incl cs cs0) by (intros x Hx; apply Hin; now right).
  specialize (IH (S i) Hcs).
  assert (B : Forall A (snd (start_child child_call p i c))).
  { unfold start_child. destruct c as [s|b].
    - destruct (negb _); [|constructor].
      rewrite Forall_forall in child_all.
      pose proof (child_all _ Hc (p ++ [i])) as B. cbn [on_services] in B.
      destruct (child_call (p ++ [i]) s) as [[r' s'] tr']. exact B.
    - destruct (negb _); [|constructor]. cbn [server_start snd].
      constructor; [apply HS | constructor]. }
  destruct (start_child child_call p i c) as [[r c'] tr].
  destruct r; cbn [snd] in *; [|exact B].
  destruct (start_children child_call p (S i) cs) as [[r rest] tr'].
  cbn [snd] in *. apply Forall_app. auto.
Qed.
End TraceAll.

Lemma stop_trace_all (A : event -> Prop) cur :
  (forall q a, emitted_by_stop a = true -> A (q, a)) ->
  forall s p t, Forall A (snd (stop cur p s t)).
Proof.
  intros HA s. induction s as [n cs IH] using service_induction. intros p t.
  rewrite stop_eq.
  destruct (in_group cur n); [repeat constructor; now apply HA|]. cbn zeta.
  assert (B : Forall A (snd (stop_body (fun q s' => stop cur q s' None) p
                                       (set_started false n) cs))).
  { unfold stop_body.
    destruct (pre_stop _); [|repeat constructor; now apply HA].
    pose proof (@stop_children_all A (fun q s' => stop cur q s' None) cs) as L.
    specialize (L ltac:(eapply Forall_impl; [|exact IH];
                        intros [s'|b]; cbn; auto) p
                  ltac:(intros; now apply HA) cs 0%nat (incl_refl _)).
    destruct (stop_children _ p 0 cs) as [[r cs'] tr]. cbn [snd] in *.
    destruct r; cbn [snd]; (constructor; [now apply HA|]); [|exact L].
    apply Forall_app. split; [exact L | repeat constructor; now apply HA]. }
  destruct (stop_body _ p (set_started false n) cs) as [[r cs'] tr].
  assert (C : Forall A (snd (cleanup p t (set_started false n)))).
  { unfold cleanup. destruct (greenlets _); cbn [snd app];
      repeat constructor; now apply HA. }
  destruct (cleanup p t (set_started false n)) as [n2 trc]. cbn [snd] in B, C.
  assert (Forall A ((p, SetStarted false) :: tr ++ trc ++ [(p, PostStop)])).
  { constructor; [now apply HA|]. apply Forall_app. split; [exact B|].
    apply Forall_app. split; [exact C | repeat constructor; now apply HA]. }
  destruct (post_stop (hk n2)); exact H.
Qed.

Lemma start_trace_all (A : event -> Prop) cur bur :
  (forall q a, emitted_by_stop a = true -> A (q, a)) ->
  (forall q a, emitted_by_start bur a = true -> A (q, a)) ->
  forall s p, Forall A (snd (start cur p s bur)).
Proof.
  intros HA HB s. induction s as [n cs IH] using service_induction. intros p.
  rewrite start_eq. destruct (started n); [constructor|]. cbn zeta.
  set (n0 := set_ready_event false (set_stopped_event false n)).
  assert (B : Forall A (snd (start_body (fun q s' => start cur q s' bur)
                                        p bur n0 cs))).
  { unfold start_body.
    destruct (pre_start _); [|repeat constructor; now apply HB].
    pose proof (@start_children_all A (fun q s' => start cur q s' bur) cs) as L.
    specialize (L ltac:(eapply Forall_impl; [|exact IH];
                        intros [s'|b]; cbn; auto) p
                  ltac:(intros; now apply HB) cs 0%nat (incl_refl _)).
    destruct (start_children _ p 0 cs) as [[r cs'] tr]. cbn [snd] in L.
    destruct r; cbn [snd]; [|constructor; [now apply HB | exact L]].
    assert (D : Forall A (snd (call_do_start p n0))).
    { unfold call_do_start. destruct (ds_set_ready _); cbn [snd];
        repeat constructor; now apply HB. }
    assert (E : forall v n', Forall A (snd (after_do_start p bur v n'))).
    { intros v n'. unfold after_do_start.
      destruct (py_eq v NOT_READY), (py_is_True bur) eqn:T;
        cbn [snd andb negb]; repeat constructor; apply HB; cbn; auto. }
    destruct (call_do_start p n0) as [[r n1] tr2]. cbn [snd] in D.
    destruct r as [v|]; cbn [snd].
    - specialize (E v n1). destruct (after_do_start p bur v n1) as [n2 tr3].
      cbn [snd] in *. constructor; [now apply HB|].
      repeat (apply Forall_app; split; auto);
        repeat constructor; now apply HB.
    - constructor; [now apply HB|]. apply Forall_app. auto. }
  destruct (start_body _ p bur n0 cs) as [[[r n1] cs'] tr]. cbn [snd] in B.
  assert (B' : Forall A ((p, ClearStopped) :: (p, ClearReady) :: tr))
    by (repeat constructor; auto; now apply HB).
  destruct r; cbn [snd]; [exact B'|].
  pose proof (stop_trace_all A cur HA (Svc n1 cs') p None) as S.
  destruct (stop cur p (Svc n1 cs') None) as [[r' s'] tr']. cbn [snd] in S.
  assert (Forall A (((p, ClearStopped) :: (p, ClearReady) :: tr) ++ tr'))
    by (apply Forall_app; auto).
  destruct r'; exact H.
Qed.

(** X4: unless [block_until_ready] is the object [True], [start] waits on
    no ready event anywhere in the tree, whatever the hooks return or
    raise: a truthy value such as 1 does not make it wait. *)
Theorem start_waits_only_for_True cur bur s p :
  py_is_True bur = false ->
  Forall (fun ev => is_wait (snd ev) = false) (snd (start cur p s bur)).
Proof.
  intros T. apply start_trace_all.
  - intros q a. destruct a as [| | | | | | [] | | | | | | | | | | |];
      cbn; auto; discriminate.
  - intros q a. destruct a; cbn; auto. now rewrite T.
Qed.

Lemma start_waits_only_for_True_witness :
  Forall (fun ev => is_wait (snd ev) = false)
         (snd (start 0 [] (Fixtures.leaf "S" Fixtures.returns_True) (PyInt 1))).
Proof.
  exact (@start_waits_only_for_True 0 (PyInt 1)
           (Fixtures.leaf "S" Fixtures.returns_True) [] eq_refl).
Defined.

Section QuietChildren.
Variables (cur : nat) (bur : pyval).
Let quiet (s : service) : Prop :=
  forall q s' tr, start cur q s bur = (Ret tt, s', tr) ->
                  Forall (fun ev => is_stop_effect (snd ev) = false) tr.

Lemma start_children_quiet p : forall cs i cs' tr,
  Forall (on_services quiet) cs ->
  start_children (fun q s => start cur q s bur) p i cs = (Ret tt, cs', tr) ->
  Forall (fun ev => is_stop_effect (snd ev) = false) tr.
Proof.
  induction cs as [|c cs IH]; intros i cs' tr F; cbn [start_children].
  - intros [= <- <-]. constructor.
  - inversion F as [|c0 cs0 Fc Fcs]; subst.
    destruct (start_child _ p i c) as [[r c1] tr1] eqn:Hc.
    destruct r as [[]|]; [|discriminate].
    destruct (start_children _ p (S i) cs) as [[r rest] tr2] eqn:Hr.
    intros [= -> <- <-]. apply Forall_app. split; [|eapply IH; eauto].
    revert Hc. unfold start_child. destruct c as [s|b].
    + destruct (negb _); [|intros [= _ <-]; constructor].
      destruct (start cur (p ++ [i]) s bur) as [[r s1] tr3] eqn:H1.
      intros [= -> _ <-]. cbn [on_services] in Fc. exact (Fc _ _ _ H1).
    + destruct (negb _); [intros [= _ _ <-] | intros [= _ <-]];
        repeat constructor.
Qed.
End QuietChildren.

(** X5: a [start] that returns has torn nothing down: its effects include
    no stop hook, no [started = False], no join or kill of a group and no
    stop of a foreign server, anywhere in the tree. *)
Theorem start_ok_no_teardown cur bur : forall s p s' tr,
  start cur p s bur = (Ret tt, s', tr) ->
  Forall (fun ev => is_stop_effect (snd ev) = false) tr.
Proof.
  intros s. induction s as [n cs IH] using service_induction.
  intros p s' tr H.
  apply start_ok_inv in H
    as (cs' & tr1 & v & n1 & tr2 & n2 & tr3 & _ & _ & Hc & Hd & Ha & _ & _ & ->).
  apply start_children_quiet in Hc; [|exact IH].
  repeat constructor. apply Forall_app. split; [exact Hc|].
  apply Forall_app. split.
  - revert Hd. unfold call_do_start. destruct (ds_set_ready _);
      intros [= _ _ <-]; repeat constructor.
  - apply Forall_app. split; [|repeat constructor].
    revert Ha. unfold after_do_start.
    destruct (_ && _); [|destruct (negb _)]; intros [= _ <-];
      repeat constructor.
Qed.

Lemma start_ok_no_teardown_witness :
  Forall (fun ev => is_stop_effect (snd ev) = false)
         (snd (start 0 [] Fixtures.fresh_tree (PyBool true))).
Proof.
  exact (@start_ok_no_teardown 0 (PyBool true) Fixtures.fresh_tree []
           (snd (fst (start 0 [] Fixtures.fresh_tree (PyBool true))))
           (snd (start 0 [] Fixtures.fresh_tree (PyBool true))) eq_refl).
Defined.

(** A [start] leaves the group of the service alone unless it has to
    stop it again. *)
Lemma start_ok_group cur p n cs bur s' tr :
  start cur p (Svc n cs) bur = (Ret tt, s', tr) ->
  greenlets (node_of s') = greenlets n.
Proof.
  rewrite start_eq. destruct (started n); [discriminate|]. cbn zeta.
  destruct (start_body _ p bur _ cs) as [[[r n1] cs1] tr0] eqn:Hb.
  apply start_body_node in Hb as (Hg & _).
  destruct r.
  - intros [= <- _]. exact Hg.
  - destruct (stop cur p (Svc n1 cs1) None) as [[r' s1] tr1].
    destruct r'; discriminate.
Qed.

(** A [start] that raises, called from outside the group of a service
    that was not started, leaves it stopped. *)
Lemma start_failed_flags cur p n cs bur e s' tr :
  started n = false ->
  in_group cur n = false ->
  start cur p (Svc n cs) bur = (Raise e, s', tr) ->
  started (node_of s') = false
  /\ ready_event (node_of s') = false
  /\ stopped_event (node_of s') = true.
Proof.
  intros Hs Hg. rewrite start_eq, Hs. cbn zeta.
  destruct (start_body _ p bur _ cs) as [[[r n1] cs1] tr0] eqn:Hb.
  apply start_body_node in Hb as (Hgr & _).
  destruct r; [discriminate|].
  destruct (stop cur p (Svc n1 cs1) None) as [[r' s1] tr1] eqn:Hstop.
  assert (F : started (node_of s1) = false /\ ready_event (node_of s1) = false
              /\ stopped_event (node_of s1) = true).
  { eapply stop_flags; [|exact Hstop]. unfold in_group in *. now rewrite Hgr. }
  destruct r'; intros [= _ <- _]; exact F.
Qed.

(** X6: [with service: body], entered from outside the service's group on
    a service that is not started, never leaves it started: whether
    [start] raises, the body raises or returns, or [stop] raises, the
    service ends not started, not ready, with its stopped event set.  The
    body's result is the statement's result when [start] and [stop]
    return. *)
Theorem with_service_never_abandons {A} cur p n cs
    (body : service -> result A * service) :
  started n = false ->
  in_group cur n = false ->
  (forall s1, greenlets (node_of (snd (body s1))) = greenlets (node_of s1)) ->
  let '(r, s', tr) := with_service cur p (Svc n cs) body in
  started (node_of s') = false
  /\ ready s' = false
  /\ stopped_event (node_of s') = true
  /\ (forall s1 tr1 s2 tr2,
        start cur p (Svc n cs) (PyBool true) = (Ret tt, s1, tr1) ->
        stop cur p (snd (body s1)) None = (Ret tt, s2, tr2) ->
        r = fst (body s1)).
Proof.
  intros Hs Hg Hb. unfold with_service.
  destruct (start cur p (Svc n cs) (PyBool true)) as [[r s1] tr1] eqn:H1.
  destruct r as [[]|e].
  - pose proof (@start_ok_group _ _ _ _ _ _ _ H1) as G.
    specialize (Hb s1). destruct (body s1) as [rb s2] eqn:Eb.
    cbn [fst snd] in *.
    destruct (stop cur p s2 None) as [[rs s3] tr3] eqn:H3.
    assert (F : started (node_of s3) = false /\ ready_event (node_of s3) = false
                /\ stopped_event (node_of s3) = true).
    { destruct s2 as [n2 cs2]. eapply stop_flags; [|exact H3].
      cbn [node_of] in Hb. unfold in_group in *. now rewrite Hb, G. }
    destruct F as (F1 & F2 & F3).
    destruct rs as [[]|e']; repeat split; auto;
      intros s1' tr1' s2' tr2' [= <- <-]; rewrite Eb; cbn [snd fst];
      rewrite H3; [reflexivity | discriminate].
  - destruct (@start_failed_flags _ _ _ _ _ _ _ _ Hs Hg H1) as (F1 & F2 & F3).
    repeat split; auto. discriminate.
Qed.

Lemma with_service_never_abandons_witness :
  let '(r, s', tr) :=
    with_service 0 [] (Fixtures.leaf "S" default_hooks)
                 (fun s => (@Raise unit Fixtures.E1, s)) in
  started (node_of s') = false
  /\ ready s' = false
  /\ stopped_event (node_of s') = true
  /\ (forall s1 tr1 s2 tr2,
        start 0 [] (Fixtures.leaf "S" default_hooks) (PyBool true)
          = (Ret tt, s1, tr1) ->
        stop 0 [] (snd ((fun s => (@Raise unit Fixtures.E1, s)) s1)) None
          = (Ret tt, s2, tr2) ->
        r = fst ((fun s => (@Raise unit Fixtures.E1, s)) s1)).
Proof.
  exact (@with_service_never_abandons unit 0 [] (new_node "S" default_hooks) []
           (fun s => (Raise Fixtures.E1, s)) eq_refl eq_refl
           (fun _ => eq_refl)).
Defined.

(** X7: when [serve_forever] has started the service and the
    [ready_callback] raises, the fault is raised to the caller with the
    service left running: the callback is called outside the [try], so no
    [stop] follows, and the wait is never reached. *)
Theorem serve_forever_callback_fault cur p s t e w s1 tr1 :
  started (node_of s) = false ->
  start cur p s (PyBool true) = (Ret tt, s1, tr1) ->
  serve_forever cur p s t (Some (Raise e)) w =
    (Some (Raise e), s1, tr1 ++ [(p, ReadyCallback)])
  /\ started (node_of s1) = true.
Proof.
  intros Hs H. unfold serve_forever, ensure_started. rewrite Hs. cbn [negb].
  rewrite H. split; [reflexivity|]. eapply start_ok_started; exact H.
Qed.

Lemma serve_forever_callback_fault_witness :
  serve_forever 0 [] Fixtures.fresh_tree None (Some (Raise Fixtures.E1))
                (Interrupted Fixtures.E2) =
    (Some (Raise Fixtures.E1),
     snd (fst (start 0 [] Fixtures.fresh_tree (PyBool true))),
     snd (start 0 [] Fixtures.fresh_tree (PyBool true)) ++ [([], ReadyCallback)])
  /\ started (node_of (snd (fst (start 0 [] Fixtures.fresh_tree (PyBool true)))))
     = true.
Proof.
  exact (@serve_forever_callback_fault 0 [] Fixtures.fresh_tree None Fixtures.E1
           (Interrupted Fixtures.E2) _ _ eq_refl eq_refl).
Defined.

(** X8: [serve_forever] on a running service, called from outside its
    group, whose wait is interrupted by a fault: the service is stopped
    with the [stop_timeout] given and a fault is raised, the interrupting
    one when the stop returns; neither [start] nor the callback is
    called. *)
Theorem serve_forever_interrupted cur p n cs t cb e :
  started n = true ->
  stopped_event n = false ->
  in_group cur n = false ->
  exists r s' tr,
    stop cur p (Svc n cs) t = (r, s', tr)
    /\ serve_forever cur p (Svc n cs) t cb (Interrupted e) =
         (Some (Raise (match r with Ret _ => e | Raise e' => e' end)), s', tr)
    /\ started (node_of s') = false
    /\ ready s' = false
    /\ stopped_event (node_of s') = true.
Proof.
  intros Hs Hsp Hg.
  destruct (stop cur p (Svc n cs) t) as [[r s'] tr] eqn:H.
  exists r, s', tr. split; [reflexivity|].
  unfold serve_forever, ensure_started.
  cbn [node_of]. rewrite Hs. cbn [negb]. unfold wait_stopped.
  cbn [node_of]. rewrite Hsp, H.
  split; [destruct r; reflexivity|].
  eapply stop_flags; eauto.
Qed.

Lemma serve_forever_interrupted_witness :
  exists r s' tr,
    stop 0 [] Fixtures.busy (Some 3%Z) = (r, s', tr)
    /\ serve_forever 0 [] Fixtures.busy (Some 3%Z) None
                     (Interrupted Fixtures.E1) =
         (Some (Raise (match r with Ret _ => Fixtures.E1 | Raise e' => e' end)),
          s', tr)
    /\ started (node_of s') = false
    /\ ready s' = false
    /\ stopped_event (node_of s') = true.
Proof.
  exact (@serve_forever_interrupted 0 [] Fixtures.busy_node [] (Some 3%Z) None
           Fixtures.E1 eq_refl eq_refl eq_refl).
Defined.




(** X9: a method decorated with [require_ready] is called, on the service
    as it is, when the service is ready; when it is not ready and nobody
    calls [set_ready] during the wait, a [RuntimeWarning] is raised and the
    method is not called.  After a [stop] that was not deferred this is
    the case. *)
Theorem require_ready_gate {A} (func : service -> result A * service) cur p s t :
  (ready s = true -> forall w, require_ready func w s = func s)
  /\ (ready s = false ->
      require_ready func false s =
        (Raise (RuntimeWarning "Service must be ready to call this method."), s))
  /\ (in_group cur (node_of s) = false ->
      require_ready func false (snd (fst (stop cur p s t))) =
        (Raise (RuntimeWarning "Service must be ready to call this method."),
         snd (fst (stop cur p s t)))).
Proof.
  assert (N : forall s0, ready s0 = false ->
            require_ready func false s0 =
            (Raise (RuntimeWarning "Service must be ready to call this method."),
             s0)).
  { intros [n0 cs0]. unfold require_ready, ready. cbn [node_of].
    intros H. rewrite H. cbn [orb ready_event set_ready_event negb].
    destruct n0; cbn in *; subst; reflexivity. }
  split; [|split; [apply N|]].
  - destruct s as [n cs]. unfold require_ready, ready. cbn [node_of].
    intros H w. rewrite H. cbn [orb ready_event set_ready_event negb].
    destruct n; cbn in *; subst; reflexivity.
  - intros Hg. apply N. destruct s as [n cs].
    destruct (stop cur p (Svc n cs) t) as [[r s'] tr] eqn:H.
    apply stop_flags in H as (_ & H & _); [exact H | exact Hg].
Qed.

Lemma require_ready_gate_witness :
  require_ready (fun s => (Ret PyNone, s)) false
                (snd (fst (stop 0 [] Fixtures.busy None))) =
    (Raise (RuntimeWarning "Service must be ready to call this method."),
     snd (fst (stop 0 [] Fixtures.busy None))).
Proof.
  exact (proj2 (proj2 (@require_ready_gate pyval (fun s => (Ret PyNone, s))
                         0 [] Fixtures.busy None)) eq_refl).
Defined.

(** X10: a greenlet made by [spawn] or [spawn_later] belongs to the
    service's group at once, so a [stop] that this greenlet calls on its
    own service is deferred: it returns with the service untouched. *)
Theorem stop_from_spawned_task_defers g func seconds n cs p t n1 task :
  (n1, task) = spawn g func n \/ (n1, task) = spawn_later seconds g func n ->
  in_group (gid (t_greenlet task)) n1 = true
  /\ stop (gid (t_greenlet task)) p (Svc n1 cs) t =
       (Ret tt, Svc n1 cs, [(p, SpawnStop)]).
Proof.
  intros H.
  assert (E : greenlets n1 = greenlets n ++ [g] /\ t_greenlet task = g)
    by (destruct H as [[= -> ->]|[= -> ->]]; split; reflexivity).
  destruct E as [E1 E2].
  assert (G : in_group (gid (t_greenlet task)) n1 = true).
  { unfold in_group. rewrite E1, E2, existsb_app. cbn.
    now rewrite Nat.eqb_refl, orb_true_r. }
  split; [exact G|]. now rewrite stop_eq, G.
Qed.

Lemma stop_from_spawned_task_defers_witness :
  let '(n1, task) := spawn (Greenlet 7 5) Fixtures.raises_E1
                           (new_node "S" default_hooks) in
  in_group (gid (t_greenlet task)) n1 = true
  /\ stop (gid (t_greenlet task)) [] (Svc n1 []) None =
       (Ret tt, Svc n1 [], [([], SpawnStop)]).
Proof.
  exact (@stop_from_spawned_task_defers (Greenlet 7 5) Fixtures.raises_E1 0%Z
           (new_node "S" default_hooks) [] [] None _ _ (or_introl eq_refl)).
Defined.

(** *** What a start and stop cycle preserves *)

Lemma configuration_eq n cs :
  configuration (Svc n cs) =
  Svc (blank n)
      (map (fun c => match c with
                     | CService s' => CService (configuration s')
                     | CServer b =>
                         CServer (BaseServer false (bs_start b) (bs_stop b))
                     end) cs).
Proof. reflexivity. Qed.

Section KeepConfiguration.
Variable child_call : path -> service -> result unit * service * trace.
Variable cs0 : list child.
Hypothesis child_keeps :
  Forall (on_services
            (fun s => forall q, configuration (snd (fst (child_call q s)))
                                = configuration s)) cs0.

Let cfg (c : child) : child :=
  match c with
  | CService s' => CService (configuration s')
  | CServer b => CServer (BaseServer false (bs_start b) (bs_stop b))
  end.

Lemma stop_child_cfg p i c :
  In c cs0 -> cfg (snd (fst (stop_child child_call p i c))) = cfg c.
Proof.
  intros Hc. unfold stop_child. destruct (child_started c); [|reflexivity].
  destruct c as [s|b]; [|reflexivity].
  rewrite Forall_forall in child_keeps.
  pose proof (child_keeps _ Hc (p ++ [i])) as K. cbn [on_services] in K.
  destruct (child_call (p ++ [i]) s) as [[r s'] tr]. cbn [fst snd cfg] in *.
  now rewrite K.
Qed.

Lemma start_child_cfg p i c :
  In c cs0 -> cfg (snd (fst (start_child child_call p i c))) = cfg c.
Proof.
  intros Hc. unfold start_child. destruct c as [s|b].
  - destruct (negb _); [|reflexivity].
    rewrite Forall_forall in child_keeps.
    pose proof (child_keeps _ Hc (p ++ [i])) as K. cbn [on_services] in K.
    destruct (child_call (p ++ [i]) s) as [[r s'] tr]. cbn [fst snd cfg] in *.
    now rewrite K.
  - destruct (negb _); reflexivity.
Qed.

Lemma stop_children_cfg p : forall cs i,
  incl cs cs0 ->
  map cfg (snd (fst (stop_children child_call p i cs))) = map cfg cs.
Proof.
  induction cs as [|c cs IH]; intros i Hin; cbn [stop_children]; [reflexivity|].
  assert (Hc : In c cs0) by (apply Hin; now left).
  assert (Hcs : incl cs cs0) by (intros x Hx; apply Hin; now right).
  specialize (IH (S i) Hcs).
  destruct (stop_children child_call p (S i) cs) as [[r rest] tr].
  cbn [fst snd] in IH. destruct r; cbn [fst snd map]; [|now rewrite IH].
  pose proof (@stop_child_cfg p i c Hc) as K.
  destruct (stop_child child_call p i c) as [[r c'] tr'].
  cbn [fst snd map] in *. now rewrite K, IH.
Qed.

Lemma start_children_cfg p : forall cs i,
  incl cs cs0 ->
  map cfg (snd (fst (start_children child_call p i cs))) = map cfg cs.
Proof.
  induction cs as [|c cs IH]; intros i Hin; cbn [start_children]; [reflexivity|].
  assert (Hc : In c cs0) by (apply Hin; now left).
  assert (Hcs : incl cs cs0) by (intros x Hx; apply Hin; now right).
  specialize (IH (S i) Hcs).
  pose proof (@start_child_cfg p i c Hc) as K.
  destruct (start_child child_call p i c) as [[r c'] tr].
  cbn [fst snd] in K. destruct r; cbn [fst snd map]; [|now rewrite K].
  destruct (start_children child_call p (S i) cs) as [[r rest] tr'].
  cbn [fst snd map] in *. now rewrite K, IH.
Qed.

Lemma stop_body_cfg p n cs :
  incl cs cs0 ->
  map cfg (snd (fst (stop_body child_call p n cs))) = map cfg cs.
Proof.
  intros Hin. unfold stop_body. destruct (pre_stop _); [|reflexivity].
  pose proof (@stop_children_cfg p cs 0%nat Hin) as K.
  destruct (stop_children child_call p 0 cs) as [[r cs'] tr].
  destruct r; exact K.
Qed.

Lemma start_body_cfg p bur n cs :
  incl cs cs0 ->
  map cfg (snd (fst (start_body child_call p bur n cs))) = map cfg cs
  /\ blank (snd (fst (fst (start_body child_call p bur n cs)))) = blank n.
Proof.
  intros Hin. unfold start_body. destruct (pre_start _); [|auto].
  pose proof (@start_children_cfg p cs 0%nat Hin) as K.
  destruct (start_children child_call p 0 cs) as [[r cs'] tr].
  cbn [fst snd] in K. destruct r; [|auto].
  unfold call_do_start, after_do_start.
  destruct (ds_set_ready _); (destruct (ds_out _) as [v|]; [|auto]);
    destruct (_ && _); try destruct (negb _); auto.
Qed.
End KeepConfiguration.

Lemma stop_configuration cur : forall s p t,
  configuration (snd (fst (stop cur p s t))) = configuration s.
Proof.
  intros s. induction s as [n cs IH] using service_induction. intros p t.
  destruct (in_group cur n) eqn:Hg; [now rewrite stop_eq, Hg|].
  rewrite stop_result by exact Hg. rewrite !configuration_eq. f_equal.
  - unfold cleanup. destruct (greenlets _); reflexivity.
  - apply stop_body_cfg with (cs0 := cs); [|apply incl_refl].
    revert IH. apply Forall_impl. intros [s'|b]; cbn [on_services]; auto.
Qed.

Lemma start_configuration cur bur : forall s p,
  configuration (snd (fst (start cur p s bur))) = configuration s.
Proof.
  intros s. induction s as [n cs IH] using service_induction. intros p.
  destruct (started n) eqn:Hs; [now rewrite start_eq, Hs|].
  rewrite start_result by exact Hs. cbn zeta.
  set (n0 := set_ready_event false (set_stopped_event false n)).
  destruct (@start_body_cfg (fun q s => start cur q s bur) cs
              ltac:(revert IH; apply Forall_impl;
                    intros [s'|b]; cbn [on_services]; auto)
              p bur n0 cs (incl_refl _)) as [K1 K2].
  assert (E : configuration
                (Svc (snd (fst (fst (start_body (fun q s => start cur q s bur)
                                                p bur n0 cs))))
                     (snd (fst (start_body (fun q s => start cur q s bur)
                                           p bur n0 cs))))
              = configuration (Svc n cs)).
  { rewrite !configuration_eq, K1, K2. reflexivity. }
  destruct (fst (fst (fst _))); [exact E|].
  now rewrite stop_configuration.
Qed.

(** X11: no lifecycle operation ([start], [stop], [set_ready],
    [serve_forever]), whatever it returns or raises, changes anything of a
    tree but its flags, events and groups: the children, their order, the
    handler dicts, the timeouts and the hooks of every service are what
    they were. *)
Theorem lifecycle_keeps_configuration cur s o :
  configuration (run_op cur s o) = configuration s.
Proof.
  destruct o as [b|t| |t cb w]; cbn [run_op].
  - apply start_configuration.
  - apply stop_configuration.
  - destruct s. reflexivity.
  - assert (E : configuration (snd (fst (ensure_started cur [] s cb)))
                = configuration s).
    { destruct (ensure_started_state cur [] s cb) as [-> | ->];
        [reflexivity | apply start_configuration]. }
    destruct (serve_forever_state cur [] s t cb w) as [-> | ->]; [exact E|].
    destruct (wait_stopped_state cur []
                (snd (fst (ensure_started cur [] s cb))) t w)
      as [-> | (g & t' & ->)]; [exact E|].
    now rewrite stop_configuration.
Qed.

(** *** [reload] *)

Lemma reload_eq d p n cs :
  reload d p (Svc n cs) =
  let '(r, tr) := reload_children (reload d) p 0 cs in
  match r with
  | Raise e => (Raise e, tr)
  | Ret _ => (d p, tr ++ [p])
  end.
Proof. reflexivity. Qed.

Lemma postorder_eq p n cs :
  postorder p (Svc n cs) = postorder_children postorder p 0 cs ++ [p].
Proof. reflexivity. Qed.

(** The paths of the services in a subtree start with the path of its
    root. *)
Lemma postorder_under : forall s p q,
  In q (postorder p s) -> exists r, q = p ++ r.
Proof.
  intros s. induction s as [n cs IH] using service_induction. intros p q.
  rewrite postorder_eq, in_app_iff. intros [H|[<-|[]]];
    [|exists []; now rewrite app_nil_r].
  revert H. generalize 0%nat. induction cs as [|c cs IHcs]; intros i;
    cbn [postorder_children]; [intros []|].
  inversion IH as [|c0 cs0 Hc Hcs]; subst. destruct c as [s'|b].
  - rewrite in_app_iff. intros [H|H]; [|eapply IHcs; eauto].
    cbn [on_services] in Hc. destruct (Hc _ _ H) as [r ->].
    exists (i :: r). now rewrite <- app_assoc.
  - eapply IHcs; eauto.
Qed.

Lemma postorder_children_under p : forall cs i q,
  In q (postorder_children postorder p i cs) ->
  exists j r, (i <= j)%nat /\ q = p ++ j :: r.
Proof.
  induction cs as [|c cs IH]; intros i q; cbn [postorder_children];
    [intros []|].
  assert (T : In q (postorder_children postorder p (S i) cs) ->
              exists j r, (i <= j)%nat /\ q = p ++ j :: r).
  { intros H. destruct (IH _ _ H) as (j & r & Hj & ->).
    exists j, r. split; [lia | reflexivity]. }
  destruct c as [s'|b]; [|exact T].
  rewrite in_app_iff. intros [H|H]; [|now apply T].
  destruct (postorder_under _ _ _ H) as [r ->].
  exists i, r. split; [lia | now rewrite <- app_assoc].
Qed.

Lemma postorder_children_NoDup p : forall cs i,
  Forall (on_services (fun s => forall q, NoDup (postorder q s))) cs ->
  NoDup (postorder_children postorder p i cs).
Proof.
  induction cs as [|c cs IH]; intros i F; cbn [postorder_children];
    [constructor|].
  inversion F as [|c0 cs0 Hc Hcs]; subst.
  destruct c as [s'|b]; [|now apply IH].
  apply NoDup_app; [apply Hc | now apply IH |].
  intros q H1 H2. destruct (postorder_under _ _ _ H1) as [r E].
  destruct (postorder_children_under _ _ _ _ H2) as (j & r' & Hj & E').
  rewrite E' in E. rewrite <- app_assoc in E. apply app_inv_head in E.
  injection E as E _. lia.
Qed.

Lemma postorder_NoDup : forall s p, NoDup (postorder p s).
Proof.
  intros s. induction s as [n cs IH] using service_induction. intros p.
  rewrite postorder_eq. apply NoDup_app.
  - now apply postorder_children_NoDup.
  - repeat constructor. intros [].
  - intros q H [<-|[]].
    destruct (postorder_children_under _ _ _ _ H) as (j & r & _ & E).
    apply (f_equal (@List.length _)) in E. rewrite length_app in E.
    cbn in E. lia.
Qed.

Section ReloadsChildren.
Variable d : path -> result unit.

Lemma reload_children_postorder p : forall cs i,
  Forall (on_services
            (fun s => only_services s = true ->
                      forall q, reload d q s = (Ret tt, postorder q s))) cs ->
  all_children only_services (fun _ => false) cs = true ->
  reload_children (reload d) p i cs =
  (Ret tt, postorder_children postorder p i cs).
Proof.
  induction cs as [|c cs IH]; intros i F Ho; [reflexivity|].
  inversion F as [|c0 cs0 Hc Hcs]; subst.
  rewrite all_children_cons in Ho. apply andb_true_iff in Ho as [Ho1 Ho2].
  destruct c as [s'|b]; [|discriminate].
  cbn [reload_children postorder_children on_services] in *.
  rewrite (Hc Ho1), (IH _ Hcs Ho2). reflexivity.
Qed.
End ReloadsChildren.

(** X19: on a tree of services whose [do_reload] hooks all return,
    [reload] returns and has called [do_reload] once on every service of
    the tree, the children of a service in list order and before the
    service itself, started or not. *)
Theorem reload_reaches_every_service_once d :
  (forall q, d q = Ret tt) ->
  forall s p,
    only_services s = true ->
    reload d p s = (Ret tt, postorder p s)
    /\ NoDup (snd (reload d p s))
    /\ last (snd (reload d p s)) [] = p.
Proof.
  intros Hd.
  assert (R : forall s, only_services s = true ->
                        forall p, reload d p s = (Ret tt, postorder p s)).
  { intros s. induction s as [n cs IH] using service_induction.
    intros Ho p. rewrite reload_eq, postorder_eq. cbn [only_services] in Ho.
    rewrite (@reload_children_postorder d p cs 0%nat IH Ho), Hd. reflexivity. }
  intros s p Ho. rewrite (R s Ho p). cbn [snd].
  split; [reflexivity|]. split; [apply postorder_NoDup|].
  destruct s. rewrite postorder_eq. apply last_last.
Qed.

Lemma reload_reaches_every_service_once_witness :
  reload (fun _ => Ret tt) [] Fixtures.abc =
    (Ret tt, [[0]; [1]; [2]; []]%nat)
  /\ NoDup (snd (reload (fun _ => Ret tt) [] Fixtures.abc))
  /\ last (snd (reload (fun _ => Ret tt) [] Fixtures.abc)) [] = [].
Proof.
  exact (@reload_reaches_every_service_once (fun _ => Ret tt)
           (fun _ => eq_refl) Fixtures.abc [] eq_refl).
Defined.

Lemma reload_children_under d p : forall cs i q,
  Forall (on_services
            (fun s => forall p' q', In q' (snd (reload d p' s)) ->
                                    exists r, q' = p' ++ r)) cs ->
  In q (snd (reload_children (reload d) p i cs)) ->
  exists j r, q = p ++ j :: r.
Proof.
  induction cs as [|c cs IH]; intros i q F; cbn [reload_children];
    [intros []|].
  inversion F as [|c0 cs0 Hc Hcs]; subst.
  destruct c as [s'|b]; [|intros []].
  cbn [on_services] in Hc. specialize (Hc (p ++ [i])).
  destruct (reload d (p ++ [i]) s') as [r tr]. cbn [snd] in Hc.
  assert (T : In q tr -> exists j r0, q = p ++ j :: r0).
  { intros H. destruct (Hc _ H) as [r0 ->]. exists i, r0.
    now rewrite <- app_assoc. }
  destruct r; [|exact T].
  specialize (IH (S i) q Hcs).
  destruct (reload_children (reload d) p (S i) cs) as [r' tr']. cbn [snd] in *.
  rewrite in_app_iff. intros [H|H]; auto.
Qed.

Lemma reload_under d : forall s p q,
  In q (snd (reload d p s)) -> exists r, q = p ++ r.
Proof.
  intros s. induction s as [n cs IH] using service_induction. intros p q.
  rewrite reload_eq.
  pose proof (fun q => @reload_children_under d p cs 0%nat q IH) as U.
  destruct (reload_children (reload d) p 0 cs) as [r tr]. cbn [snd] in U.
  assert (T : In q tr -> exists r0, q = p ++ r0).
  { intros H. destruct (U _ H) as (j & r0 & ->). now exists (j :: r0). }
  destruct r; cbn [snd]; [|exact T].
  rewrite in_app_iff. intros [H|[<-|[]]]; [auto|].
  exists []. now rewrite app_nil_r.
Qed.

(** X20: when the reload of a child raises, or the child list holds a
    foreign server, which has no [reload], the fault is raised to the
    caller and the service's own [do_reload] is not called; nor is any
    child after the failing one reloaded. *)
Theorem reload_child_fault_skips_parent d p n cs e :
  fst (reload_children (reload d) p 0 cs) = Raise e ->
  reload d p (Svc n cs) = (Raise e, snd (reload_children (reload d) p 0 cs))
  /\ ~ In p (snd (reload d p (Svc n cs))).
Proof.
  intros H. rewrite reload_eq.
  assert (F : Forall (on_services
                        (fun s => forall p' q', In q' (snd (reload d p' s)) ->
                                                exists r, q' = p' ++ r)) cs).
  { apply Forall_forall. intros [s'|b] _; cbn [on_services];
      [apply reload_under | exact I]. }
  pose proof (fun q => @reload_children_under d p cs 0%nat q F) as U.
  destruct (reload_children (reload d) p 0 cs) as [r tr]. cbn [fst snd] in *.
  subst r. split; [reflexivity|]. cbn [snd]. intros Hin.
  destruct (U _ Hin) as (j & r & E).
  apply (f_equal (@List.length _)) in E. rewrite length_app in E.
  cbn in E. lia.
Qed.

Lemma reload_child_fault_skips_parent_witness :
  reload (fun _ => Ret tt) [] Fixtures.fresh_tree =
    (Raise (AttributeError "'BaseServer' object has no attribute 'reload'"),
     [[0%nat]])
  /\ ~ In [] (snd (reload (fun _ => Ret tt) [] Fixtures.fresh_tree)).
Proof.
  exact (@reload_child_fault_skips_parent (fun _ => Ret tt) []
           (node_of Fixtures.fresh_tree) (children Fixtures.fresh_tree)
           _ eq_refl).
Defined.

(** *** A second cycle *)

Lemma all_started_closed : forall s, all_started s = true -> closed s = true.
Proof.
  intros s. induction s as [n cs IH] using service_induction.
  cbn [all_started closed]. intros H. apply andb_true_iff in H as [-> H].
  cbn [orb andb]. induction cs as [|c cs IHcs]; [reflexivity|].
  inversion IH as [|c0 cs0 Hc Hcs]; subst.
  rewrite all_children_cons in *. apply andb_true_iff in H as [H1 H2].
  rewrite (IHcs Hcs H2), andb_true_r. destruct c; [now apply Hc | reflexivity].
Qed.

Section SameConfiguration.
Variables (cur : nat) (bur : pyval).
Let same (s : service) : Prop :=
  forall s2 q s' tr,
    all_stopped s = true -> all_stopped s2 = true ->
    configuration s2 = configuration s ->
    start cur q s bur = (Ret tt, s', tr) ->
    exists s2', start cur q s2 bur = (Ret tt, s2', tr).

Lemma start_children_same p : forall cs cs2 i cs' tr,
  Forall (on_services same) cs ->
  all_children all_stopped (fun b => negb (bs_started b)) cs = true ->
  all_children all_stopped (fun b => negb (bs_started b)) cs2 = true ->
  configuration (Svc (new_node "" default_hooks) cs2)
    = configuration (Svc (new_node "" default_hooks) cs) ->
  start_children (fun q s => start cur q s bur) p i cs = (Ret tt, cs', tr) ->
  exists cs2',
    start_children (fun q s => start cur q s bur) p i cs2 = (Ret tt, cs2', tr).
Proof.
  induction cs as [|c cs IH]; intros cs2 i cs' tr F Hs Hs2 Hcfg;
    rewrite !configuration_eq in Hcfg; injection Hcfg as Hcfg;
    destruct cs2 as [|c2 cs2]; try discriminate Hcfg.
  - intros [= <- <-]. exists []. reflexivity.
  - cbn [map] in Hcfg. injection Hcfg as Hc Hcfg.
    inversion F as [|c0 cs0 Fc Fcs]; subst.
    rewrite all_children_cons in Hs, Hs2.
    apply andb_true_iff in Hs as [Hs Hss].
    apply andb_true_iff in Hs2 as [Hs2 Hss2].
    cbn [start_children].
    destruct (start_child _ p i c) as [[r c1] tr1] eqn:H1.
    destruct r as [[]|]; [|discriminate].
    destruct (start_children _ p (S i) cs) as [[r rest] tr2] eqn:Hr.
    intros [= -> <- <-].
    destruct (IH cs2 (S i) _ _ Fcs Hss Hss2
                ltac:(rewrite !configuration_eq; now rewrite Hcfg) Hr)
      as [rest2 Hr2].
    assert (exists c2', start_child (fun q s => start cur q s bur) p i c2
                        = (Ret tt, c2', tr1)) as [c2' H2].
    { revert H1. unfold start_child.
      destruct c as [s|b], c2 as [s2|b2]; try discriminate Hc.
      - injection Hc as Hc.
        assert (E : started (node_of s) = false).
        { destruct s. cbn in *. apply andb_true_iff in Hs as [H _].
          now apply negb_true_iff in H. }
        assert (E2 : started (node_of s2) = false).
        { destruct s2. cbn in *. apply andb_true_iff in Hs2 as [H _].
          now apply negb_true_iff in H. }
        rewrite E, E2. cbn [negb].
        destruct (start cur (p ++ [i]) s bur) as [[r s'] tr3] eqn:Hst.
        intros [= -> _ <-]. cbn [on_services] in Fc.
        destruct (Fc s2 _ _ _ Hs Hs2 Hc Hst) as [s2' ->]. eauto.
      - injection Hc as Hb1 Hb2. apply negb_true_iff in Hs, Hs2.
        rewrite Hs, Hs2. cbn [negb server_start]. rewrite Hb1.
        intros [= -> _ <-]. eauto. }
    rewrite H2, Hr2. eauto.
Qed.
End SameConfiguration.

(** A [start] that returns depends on the configuration of a stopped
    tree only: what the events and the groups hold plays no part. *)
Lemma start_same_configuration cur bur : forall s s2 q s' tr,
  all_stopped s = true -> all_stopped s2 = true ->
  configuration s2 = configuration s ->
  start cur q s bur = (Ret tt, s', tr) ->
  exists s2', start cur q s2 bur = (Ret tt, s2', tr).
Proof.
  intros s. induction s as [n cs IH] using service_induction.
  intros [n2 cs2] q s' tr Hs Hs2 Hcfg H.
  pose proof Hcfg as Hcfg'. rewrite !configuration_eq in Hcfg'.
  pose proof (f_equal node_of Hcfg') as Hn.
  pose proof (f_equal children Hcfg') as Hcs. cbn [node_of children] in Hn, Hcs.
  clear Hcfg'.
  cbn [all_stopped] in Hs, Hs2.
  apply andb_true_iff in Hs as [Hst Hs]. apply andb_true_iff in Hs2 as [Hst2 Hs2].
  apply negb_true_iff in Hst, Hst2.
  apply start_ok_inv in H
    as (cs' & tr1 & v & n1 & tr2 & n3 & tr3 & _ & Hpre & Hc & Hd & Ha
        & Hpost & _ & ->).
  destruct (@start_children_same cur bur q cs cs2 0%nat _ _ IH Hs Hs2
              ltac:(rewrite !configuration_eq; now rewrite Hcs) Hc)
    as [cs2' Hc2].
  rewrite start_eq, Hst2. cbn zeta. unfold start_body.
  destruct n as [cn st rt sd se re gr eh hooks].
  destruct n2 as [cn2 st2 rt2 sd2 se2 re2 gr2 eh2 hooks2].
  unfold blank in Hn. cbn in Hn. injection Hn as -> -> -> -> ->.
  cbn in Hpre, Hpost, Hst, Hst2. subst sd sd2.
  revert Hd Ha. unfold call_do_start, after_do_start.
  cbn [hk set_ready_event set_stopped_event set_started ready_timeout
       ready_event class_name stop_timeout started stopped_event greenlets
       error_handlers].
  rewrite Hpre, Hc2.
  destruct (ds_set_ready (do_start hooks));
    intros [= Ho <- <-]; rewrite Ho;
    cbn [hk set_ready_event ready_timeout ready_event];
    destruct (py_eq v NOT_READY && py_is_True bur);
    [| destruct (negb (py_eq v NOT_READY)) | | destruct (negb (py_eq v NOT_READY))];
    intros [= <- <-]; cbn; rewrite Hpost; eauto.
Qed.

(** X23: a tree that was started and stopped again can be started a
    second time, and the second start is the first one over again: after
    [start] and [stop] have returned, called from outside the tree's groups
    on a tree in which nothing was started, nothing is started, the
    configuration is what it was, and [start] returns once more with
    exactly the effects of the first [start]. *)
Theorem restart_repeats_start cur bur p s t s1 tr1 s2 tr2 :
  all_stopped s = true ->
  outside cur s = true ->
  start cur p s bur = (Ret tt, s1, tr1) ->
  stop cur p s1 t = (Ret tt, s2, tr2) ->
  all_stopped s2 = true
  /\ configuration s2 = configuration s
  /\ exists s3, start cur p s2 bur = (Ret tt, s3, tr1).
Proof.
  intros Hs Ho H1 H2.
  assert (A1 : all_started s1 = true) by (eapply start_ok_all_started; eauto).
  assert (O1 : outside cur s1 = true).
  { pose proof (start_outside cur cur bur s p Ho) as O. now rewrite H1 in O. }
  assert (A2 : all_stopped s2 = true).
  { eapply stop_ok_all_stopped; eauto. now apply all_started_closed. }
  assert (C : configuration s2 = configuration s).
  { pose proof (stop_configuration cur s1 p t) as C2.
    pose proof (start_configuration cur bur s p) as C1.
    rewrite H2 in C2. rewrite H1 in C1. cbn [fst snd] in *. congruence. }
  split; [exact A2|]. split; [exact C|].
  exact (@start_same_configuration cur bur s s2 p s1 tr1 Hs A2 C H1).
Qed.

Lemma restart_repeats_start_witness :
  let s1 := snd (fst (start 0 [] Fixtures.fresh_tree (PyBool true))) in
  let tr1 := snd (start 0 [] Fixtures.fresh_tree (PyBool true)) in
  let s2 := snd (fst (stop 0 [] s1 None)) in
  all_stopped s2 = true
  /\ configuration s2 = configuration Fixtures.fresh_tree
  /\ exists s3, start 0 [] s2 (PyBool true) = (Ret tt, s3, tr1).
Proof.
  exact (@restart_repeats_start 0 (PyBool true) [] Fixtures.fresh_tree None
           _ _ _ (snd (stop 0 []
                         (snd (fst (start 0 [] Fixtures.fresh_tree (PyBool true))))
                         None))
           eq_refl eq_refl eq_refl eq_refl).
Defined.

End LifecycleMore.

(** * Further properties of the handler dicts and the interceptor *)

Module InterceptorMore.
Import Interceptor Lifecycle Observations TreeObservations Interface.
Import LifecycleFacts InterceptorFacts.

Lemma catch_eq before cur k h n cs :
  catch before cur k h (Svc n cs) =
  let n' := set_error_handlers (setitem before k (h, cur) (error_handlers n)) n in
  let '(r, cs') := catch_children (catch before cur k h) cs in
  (r, Svc n' cs').
Proof. reflexivity. Qed.

(** What the loop of [catch] does to the child at an index: a child it
    reached is a service and had [catch] called on it, a child it did not
    reach is as it was. *)
Lemma catch_children_nth f : forall cs i c',
  nth_error (snd (catch_children f cs)) i = Some c' ->
  exists c, nth_error cs i = Some c
            /\ (c' = c \/ exists s0, c = CService s0 /\ c' = CService (snd (f s0))).
Proof.
  induction cs as [|c cs IH]; intros i c'; cbn [catch_children snd].
  - destruct i; discriminate.
  - destruct c as [s0|b].
    + destruct (f s0) as [r s1] eqn:E. destruct r.
      * specialize (IH); destruct (catch_children f cs) as [r' rest] eqn:Er.
        cbn [snd] in *. destruct i as [|i]; cbn [nth_error].
        -- intros [= <-]. exists (CService s0). split; [reflexivity|].
           right. exists s0. now rewrite E.
        -- apply IH.
      * cbn [snd]. destruct i as [|i]; cbn [nth_error].
        -- intros [= <-]. exists (CService s0). split; [reflexivity|].
           right. exists s0. now rewrite E.
        -- intros H. exists c'. auto.
    + cbn [snd]. intros H. exists c'. auto.
Qed.

(** When the loop returns, it reached every child. *)
Lemma catch_children_nth_ok f : forall cs cs' i c',
  catch_children f cs = (Ret tt, cs') ->
  nth_error cs' i = Some c' ->
  exists s0 s1, nth_error cs i = Some (CService s0)
                /\ c' = CService s1 /\ f s0 = (Ret tt, s1).
Proof.
  induction cs as [|c cs IH]; intros cs' i c'; cbn [catch_children].
  - intros [= <-]. destruct i; discriminate.
  - destruct c as [s0|b]; [|discriminate].
    destruct (f s0) as [r s1] eqn:E. destruct r as [[]|]; [|discriminate].
    destruct (catch_children f cs) as [r' rest] eqn:Er.
    intros [= -> <-]. destruct i as [|i]; cbn [nth_error].
    + intros [= <-]. exists s0, s1. auto.
    + apply IH. reflexivity.
Qed.

(** X12: when [catch] returns, every service of the tree, at any depth,
    has the handler registered under the type, with the calling greenlet:
    the registration reaches every descendant the service has at that
    time. *)
Theorem catch_reaches_every_service before cur k h : forall s s',
  catch before cur k h s = (Ret tt, s') ->
  forall q c, service_at q s' = Some c ->
              lookup k (error_handlers (node_of c)) = Some (h, cur).
Proof.
  intros s. induction s as [n cs IH] using service_induction.
  intros s' H q c. rewrite catch_eq in H. cbn zeta in H.
  destruct (catch_children (catch before cur k h) cs) as [r cs'] eqn:Hc.
  injection H as -> <-. destruct q as [|i q]; cbn [service_at children].
  - intros [= <-]. cbn [node_of error_handlers set_error_handlers].
    apply lookup_setitem_same.
  - destruct (nth_error cs' i) as [c'|] eqn:Hn; [|discriminate].
    destruct (catch_children_nth_ok _ _ _ Hc Hn) as (s0 & s1 & Hi & -> & Hf).
    apply nth_error_In in Hi. rewrite Forall_forall in IH.
    pose proof (IH _ Hi) as P. cbn [on_services] in P. exact (P _ Hf q c).
Qed.

Lemma catch_reaches_every_service_witness :
  exists c,
    service_at [0%nat] (snd (catch insertion_order 0 "StartFailed" Fixtures.h2
                                  Fixtures.parent_of_D)) = Some c
    /\ lookup "StartFailed" (error_handlers (node_of c))
       = Some (Fixtures.h2, 0%nat).
Proof.
  eexists. split; [reflexivity|].
  exact (@catch_reaches_every_service insertion_order 0 "StartFailed" Fixtures.h2
           Fixtures.parent_of_D
           (snd (catch insertion_order 0 "StartFailed" Fixtures.h2 Fixtures.parent_of_D))
           eq_refl [0%nat] _ eq_refl).
Defined.

(** X13: [catch], whether it returns or raises, removes no registration
    and changes the handler of no other type, in any service of the tree:
    a service of the tree after the call was at the same place before it,
    with the same handlers under every other type. *)
Theorem catch_keeps_other_handlers before cur k h : forall s q c',
  service_at q (snd (catch before cur k h s)) = Some c' ->
  exists c,
    service_at q s = Some c
    /\ forall k', k' <> k ->
         lookup k' (error_handlers (node_of c'))
         = lookup k' (error_handlers (node_of c)).
Proof.
  intros s. induction s as [n cs IH] using service_induction.
  intros q c'. rewrite catch_eq. cbn zeta.
  pose proof (catch_children_nth (catch before cur k h) cs) as N.
  destruct (catch_children (catch before cur k h) cs) as [r cs']. cbn [snd] in *.
  destruct q as [|i q]; cbn [service_at children].
  - intros [= <-]. exists (Svc n cs). split; [reflexivity|].
    intros k' Hk. cbn [node_of error_handlers set_error_handlers].
    now apply lookup_setitem_other.
  - destruct (nth_error cs' i) as [c1|] eqn:Hn; [|discriminate].
    destruct (N _ _ Hn) as (c0 & Hi & [-> | (s0 & -> & ->)]); rewrite Hi.
    + destruct c0 as [s0|b]; [|discriminate]. intros H. exists c'. auto.
    + apply nth_error_In in Hi. rewrite Forall_forall in IH.
      pose proof (IH _ Hi) as P. cbn [on_services] in P. apply P.
Qed.

Lemma catch_keeps_other_handlers_witness :
  exists c,
    service_at [] Fixtures.busy = Some c
    /\ forall k', k' <> "StartFailed" ->
         lookup k' (error_handlers
                      (node_of (snd (catch insertion_order 0 "StartFailed" Fixtures.h2
                                           Fixtures.busy))))
         = lookup k' (error_handlers (node_of c)).
Proof.
  exact (@catch_keeps_other_handlers insertion_order 0 "StartFailed" Fixtures.h2
           Fixtures.busy [] _ eq_refl).
Defined.

(** X14: a foreign server put in the child list as it is has no [catch]:
    the call raises [AttributeError] when the loop gets to it, after the
    service itself and the children before the server were registered;
    the children after it are not reached. *)
Theorem catch_stops_at_foreign_server before cur k h n pre b post :
  Forall (fun c => exists s0, c = CService s0
                              /\ fst (catch before cur k h s0) = Ret tt) pre ->
  catch before cur k h (Svc n (pre ++ CServer b :: post)) =
    (Raise (AttributeError "'BaseServer' object has no attribute 'catch'"),
     Svc (set_error_handlers (setitem before k (h, cur) (error_handlers n)) n)
         (map (fun c => match c with
                        | CService s0 => CService (snd (catch before cur k h s0))
                        | CServer _ => c
                        end) pre
          ++ CServer b :: post)).
Proof.
  intros F. rewrite catch_eq. cbn zeta.
  assert (E : catch_children (catch before cur k h) (pre ++ CServer b :: post) =
              (Raise (AttributeError "'BaseServer' object has no attribute 'catch'"),
               map (fun c => match c with
                             | CService s0 => CService (snd (catch before cur k h s0))
                             | CServer _ => c
                             end) pre
               ++ CServer b :: post)).
  { induction F as [|c pre (s0 & -> & Hr) _ IH]; [reflexivity|].
    cbn [app catch_children map].
    destruct (catch before cur k h s0) as [r s1]. cbn [fst snd] in *. subst r.
    now rewrite IH. }
  now rewrite E.
Qed.

Lemma catch_stops_at_foreign_server_witness :
  catch insertion_order 0 "StartFailed" Fixtures.h2 Fixtures.fresh_tree =
    (Raise (AttributeError "'BaseServer' object has no attribute 'catch'"),
     Svc (set_error_handlers [("StartFailed", (Fixtures.h2, 0%nat))]
                             (new_node "Root" default_hooks))
         ([CService (snd (catch insertion_order 0 "StartFailed" Fixtures.h2
                                (Fixtures.leaf "A" default_hooks)))]
          ++ CServer (BaseServer false (Ret tt) (Ret tt))
          :: [CService (Svc (new_node "C" default_hooks)
                            [CService (Fixtures.leaf "D" default_hooks)])])).
Proof.
  refine (@catch_stops_at_foreign_server insertion_order 0 "StartFailed" Fixtures.h2
            (new_node "Root" default_hooks)
            [CService (Fixtures.leaf "A" default_hooks)]
            (BaseServer false (Ret tt) (Ret tt))
            [CService (Svc (new_node "C" default_hooks)
                           [CService (Fixtures.leaf "D" default_hooks)])] _).
  constructor; [|constructor]. eexists. split; reflexivity.
Defined.

Lemma catch_children_length f : forall cs,
  List.length (snd (catch_children f cs)) = List.length cs.
Proof.
  induction cs as [|[s0|b] cs IH]; cbn [catch_children]; [reflexivity| |reflexivity].
  destruct (f s0) as [r s1]. destruct r; [|reflexivity].
  destruct (catch_children f cs) as [r' rest]. cbn [snd List.length] in *.
  now rewrite IH.
Qed.

(** X15: handlers are handed down when [catch] is called, not when a
    child is added.  A child added after the [catch] is the last child
    and is exactly the service that was added, with the handlers it came
    with; a child added before a [catch] that returns has the handler. *)
Theorem handlers_reach_children_at_catch_only before cur k h s c :
  service_at [List.length (children s)]
             (add_service c (snd (catch before cur k h s))) = Some c
  /\ (fst (catch before cur k h (add_service c s)) = Ret tt ->
      exists c',
        service_at [List.length (children s)]
                   (snd (catch before cur k h (add_service c s))) = Some c'
        /\ lookup k (error_handlers (node_of c')) = Some (h, cur)).
Proof.
  destruct s as [n cs]. cbn [children]. split.
  - rewrite catch_eq. cbn zeta.
    pose proof (catch_children_length (catch before cur k h) cs) as L.
    destruct (catch_children (catch before cur k h) cs) as [r cs']. cbn [snd] in *.
    cbn [add_service service_at children]. rewrite <- L.
    rewrite nth_error_app2 by apply Nat.le_refl. now rewrite Nat.sub_diag.
  - cbn [add_service]. rewrite catch_eq. cbn zeta.
    pose proof (catch_children_length (catch before cur k h) (cs ++ [CService c])) as L.
    destruct (catch_children (catch before cur k h) (cs ++ [CService c]))
      as [r cs'] eqn:Hc.
    cbn [fst snd] in *. intros ->.
    destruct (nth_error cs' (List.length cs)) as [c1|] eqn:Hn.
    + destruct (catch_children_nth_ok _ _ _ Hc Hn) as (s0 & s1 & Hi & -> & Hf).
      rewrite nth_error_app2 in Hi by apply Nat.le_refl.
      rewrite Nat.sub_diag in Hi. injection Hi as <-.
      exists s1. cbn [service_at children]. rewrite Hn. split; [reflexivity|].
      destruct c as [nc csc]. rewrite catch_eq in Hf. cbn zeta in Hf.
      destruct (catch_children (catch before cur k h) csc) as [r2 cs2].
      injection Hf as _ <-. cbn. apply lookup_setitem_same.
    + apply nth_error_None in Hn. rewrite L, length_app in Hn. cbn in Hn. lia.
Qed.

Lemma handlers_reach_children_at_catch_only_witness :
  service_at [1%nat]
             (add_service (Fixtures.leaf "E" default_hooks)
                (snd (catch insertion_order 0 "StartFailed" Fixtures.h2 Fixtures.parent_of_D)))
  = Some (Fixtures.leaf "E" default_hooks)
  /\ exists c',
       service_at [1%nat]
                  (snd (catch insertion_order 0 "StartFailed" Fixtures.h2
                          (add_service (Fixtures.leaf "E" default_hooks)
                                       Fixtures.parent_of_D))) = Some c'
       /\ lookup "StartFailed" (error_handlers (node_of c'))
          = Some (Fixtures.h2, 0%nat).
Proof.
  destruct (@handlers_reach_children_at_catch_only insertion_order 0 "StartFailed" Fixtures.h2
              Fixtures.parent_of_D (Fixtures.leaf "E" default_hooks))
    as [H1 H2].
  split; [exact H1 | exact (H2 eq_refl)].
Defined.

(** *** Handlers that raise or register *)

Lemma dispatch_skip call e t log ks : forall pre,
  Forall (fun k => isinstance e k = false) pre ->
  dispatch call e (List.length t) (pre ++ ks) t log =
  dispatch call e (List.length t) ks t log.
Proof.
  induction pre as [|k pre IH]; intros F; [reflexivity|].
  inversion F as [|k0 l Hk Hpre]; subst.
  cbn [app dispatch]. rewrite Nat.eqb_refl, Hk. cbn [negb]. now apply IH.
Qed.

Lemma keys_app (t1 t2 : table) : keys (t1 ++ t2) = keys t1 ++ keys t2.
Proof. apply map_app. Qed.

Section FirstMatch.
Variable before : list kind -> kind -> kind -> bool.
Variables (fuel cur : nat) (t pre post : table) (f h : func) (e : exn)
          (k : kind) (g : nat).
Hypothesis Hout : out f = Raise e.
Hypothesis Hregs : regs f = [].
Hypothesis Ht : t = pre ++ (k, (h, g)) :: post.
Hypothesis Hnodup : NoDup (keys t).
Hypothesis Hpre : Forall (fun kv => isinstance e (fst kv) = false) pre.
Hypothesis Hk : isinstance e k = true.

(** The loop of the [except] clause gets to the first matching entry and
    calls its handler. *)
Lemma wrapped_f_first_match :
  wrapped_f before (S (S fuel)) cur t f =
  match wrapped_f before (S fuel) cur t h with
  | (Some (Ret _), t', log') =>
      dispatch (wrapped_f before (S fuel) cur) e (List.length t) (keys post) t'
               ([fid f] ++ log')
  | (r, t', log') => (r, t', [fid f] ++ log')
  end.
Proof.
  assert (M : except_matches (keys t) e = true).
  { unfold except_matches. apply existsb_exists. exists k. split; [|exact Hk].
    rewrite Ht, keys_app. apply in_or_app. right. now left. }
  assert (L : lookup k t = Some (h, g)).
  { apply lookup_in; [exact Hnodup|]. rewrite Ht. apply in_or_app.
    right. now left. }
  assert (K : keys t = keys pre ++ k :: keys post)
    by (rewrite Ht, keys_app; reflexivity).
  rewrite (wrapped_f_eq before (S fuel)). cbn zeta.
  rewrite Hout, Hregs, M. cbn [run_regs fold_left].
  rewrite K.
  rewrite dispatch_skip by (unfold keys; rewrite Forall_map; exact Hpre).
  cbn [dispatch]. rewrite Nat.eqb_refl, Hk, L. cbn [negb]. reflexivity.
Qed.
End FirstMatch.

(** X16: when the handler called for a fault itself raises a fault that no
    registered type matches, the wrapped callable raises the handler's
    fault: the original fault is lost and the handlers of the types after
    it are not called. *)
Theorem handler_fault_replaces_original before fuel cur t pre post f h e e2 k g :
  out f = Raise e ->
  regs f = [] ->
  t = pre ++ (k, (h, g)) :: post ->
  NoDup (keys t) ->
  Forall (fun kv => isinstance e (fst kv) = false) pre ->
  isinstance e k = true ->
  regs h = [] ->
  out h = Raise e2 ->
  except_matches (keys t) e2 = false ->
  wrapped_f before (S (S fuel)) cur t f = (Some (Raise e2), t, [fid f; fid h]).
Proof.
  intros Ho Hr Ht N Hp Hk Hhr Hho Hm.
  rewrite (@wrapped_f_first_match before fuel cur t pre post f h e k g
             Ho Hr Ht N Hp Hk).
  rewrite wrapped_f_eq. cbn zeta. rewrite Hho, Hhr, Hm. reflexivity.
Qed.

Lemma handler_fault_replaces_original_witness :
  wrapped_f insertion_order 2 0 [("StartFailed", (Fixtures.h3, 0%nat))] Fixtures.raises_E1
  = (Some (Raise Fixtures.E2), [("StartFailed", (Fixtures.h3, 0%nat))],
     [0; 3]%nat).
Proof.
  refine (@handler_fault_replaces_original insertion_order 0 0
            [("StartFailed", (Fixtures.h3, 0%nat))] [] []
            Fixtures.raises_E1 Fixtures.h3 Fixtures.E1 Fixtures.E2
            "StartFailed" 0 eq_refl eq_refl eq_refl _ _ eq_refl eq_refl eq_refl
            eq_refl).
  - repeat constructor. intros [].
  - constructor.
Defined.

(** X17: a handler that registers a type not registered before changes
    the size of the dict the [except] clause is looping over: when the
    handler returns, the loop fails with [RuntimeError] (dictionary changed
    size during iteration), which the wrapped callable raises in place of
    returning the fault; the new registration stays. *)
Theorem handler_registration_breaks_loop
    before fuel cur t pre post f h e v k g k2 h2 :
  out f = Raise e ->
  regs f = [] ->
  t = pre ++ (k, (h, g)) :: post ->
  NoDup (keys t) ->
  Forall (fun kv => isinstance e (fst kv) = false) pre ->
  isinstance e k = true ->
  regs h = [(k2, h2)] ->
  out h = Ret v ->
  existsb (String.eqb k2) (keys t) = false ->
  wrapped_f before (S (S fuel)) cur t f =
    (Some (Raise dict_changed), setitem before k2 (h2, cur) t, [fid f; fid h]).
Proof.
  intros Ho Hr Ht N Hp Hk Hhr Hho Hnew.
  rewrite (@wrapped_f_first_match before fuel cur t pre post f h e k g
             Ho Hr Ht N Hp Hk).
  rewrite wrapped_f_eq. cbn zeta. rewrite Hho, Hhr.
  cbn [run_regs fold_left]. unfold catch_here. cbn [fst snd].
  destruct (keys post); cbn [dispatch];
    rewrite (@setitem_new_length before _ _ _ Hnew);
    replace (Nat.eqb (S (List.length t)) (List.length t)) with false
      by (symmetry; apply Nat.eqb_neq; lia);
    reflexivity.
Qed.

Lemma handler_registration_breaks_loop_witness :
  wrapped_f insertion_order 2 0 [("StartFailed", (Func 4 [("Other", Fixtures.h1)] (Ret PyNone),
                                  0%nat))]
            Fixtures.raises_E1
  = (Some (Raise dict_changed),
     [("StartFailed", (Func 4 [("Other", Fixtures.h1)] (Ret PyNone), 0%nat));
      ("Other", (Fixtures.h1, 0%nat))],
     [0; 4]%nat).
Proof.
  refine (@handler_registration_breaks_loop insertion_order 0 0
            [("StartFailed", (Func 4 [("Other", Fixtures.h1)] (Ret PyNone),
                              0%nat))] [] []
            Fixtures.raises_E1 (Func 4 [("Other", Fixtures.h1)] (Ret PyNone))
            Fixtures.E1 PyNone "StartFailed" 0 "Other" Fixtures.h1
            eq_refl eq_refl eq_refl _ _ eq_refl eq_refl eq_refl eq_refl).
  - repeat constructor. intros [].
  - constructor.
Defined.

End InterceptorMore.

(** * Properties of the registry of named services *)

Module RegistryFacts.
Import Lifecycle Registry.

Lemma get_setitem_same name v d : get name (setitem name v d) = Some v.
Proof.
  induction d as [|[k v'] d IH]; cbn; [now rewrite String.eqb_refl|].
  destruct (String.eqb name k) eqn:E; cbn; [|now rewrite E].
  apply String.eqb_eq in E. subst k. now rewrite String.eqb_refl.
Qed.

Lemma get_setitem_other name name' v d :
  name' <> name -> get name' (setitem name v d) = get name' d.
Proof.
  intros N. induction d as [|[k v'] d IH]; cbn.
  - apply String.eqb_neq in N. now rewrite N.
  - destruct (String.eqb name k) eqn:E; cbn; [|now rewrite IH].
    apply String.eqb_eq in E. subst k.
    apply String.eqb_neq in N. now rewrite N.
Qed.

Lemma dict_ref_eqb_refl r : dict_ref_eqb r r = true.
Proof. destruct r; cbn; [reflexivity | apply Nat.eqb_refl]. Qed.

Lemma dict_ref_eqb_neq r r' : r' <> r -> dict_ref_eqb r' r = false.
Proof.
  destruct r, r'; cbn; try congruence.
  intros N. apply Nat.eqb_neq. congruence.
Qed.

(** X21: a registration is seen by every lookup of that name in that
    dict made afterwards, the last registration winning; it changes the
    value of no other name and of no other dict, so a mock dict and the
    class-wide registry do not see each other. *)
Theorem register_then_lookup name v d h :
  get_named_service name d (register_named_service name v d h) = Some v
  /\ (forall v', get_named_service name d
                   (register_named_service name v' d
                      (register_named_service name v d h)) = Some v')
  /\ (forall name', name' <> name ->
        get_named_service name' d (register_named_service name v d h)
        = get_named_service name' d h)
  /\ (forall d' name', d' <> d ->
        get_named_service name' d' (register_named_service name v d h)
        = get_named_service name' d' h).
Proof.
  unfold get_named_service, register_named_service.
  rewrite !dict_ref_eqb_refl. repeat split.
  - apply get_setitem_same.
  - intros v'. apply get_setitem_same.
  - intros name' N. now apply get_setitem_other.
  - intros d' name' N. now rewrite dict_ref_eqb_neq.
Qed.

(** X22: [Service(...)] gives a proxy for a name, the [name] keyword
    taking precedence over the positional argument, bound to the mock dict
    when one is given and to the class-wide registry otherwise; the proxy
    is resolved at each access, so it yields the service registered under
    its name whenever that was registered, before or after the proxy was
    made.  Without a name the call fails with [IndexError]. *)
Theorem named_service_resolves_late args kw mock :
  match new args kw mock with
  | Ret ns =>
      ns_name ns = match kw with Some n => n | None => hd "" args end
      /\ ns_use_dict ns = match mock with Some i => Mock i | None => Main end
      /\ (forall h v,
            value ns (register_named_service (ns_name ns) v (ns_use_dict ns) h)
            = Some v)
      /\ (forall h, get (ns_name ns) (h (ns_use_dict ns)) = None ->
                    value ns h = None)
  | Raise e => kw = None /\ args = [] /\ isinstance e "IndexError" = true
  end.
Proof.
  unfold new. destruct kw as [n|]; [|destruct args as [|a args]];
    cbn [ns_name ns_use_dict hd]; repeat split; auto;
    intros h v; unfold value, get_named_service, register_named_service;
    cbn [ns_name ns_use_dict]; rewrite dict_ref_eqb_refl;
    apply get_setitem_same.
Qed.

End RegistryFacts.
